(** * LocalUI: content preview, S3 listing, SQS actions and route loaders

    A shallow embedding of the pure and effectful logic of the console:
    - [PreviewElement.tsx]: the content-type dispatcher [PreviewContent],
      the viewers behind it and [convertToTree];
    - [s3.buckets.$id.($key)/route.tsx]: the bucket listing [loader];
    - [sqs.queues._index/actions.ts]: [createQueueAction];
    - the console-home [loader] and the root [ErrorBoundary].

    JavaScript strings are modelled as [string]; every pattern the code
    searches for is ASCII, so character positions and code units agree on
    the outcome of each test.  [undefined] is [None]. *)

From Stdlib Require Import String Ascii List ZArith Lia Bool Arith.
From Stdlib Require Import Floats.PrimFloat.
From Stdlib Require Import Decimal DecimalString.
Import ListNotations.
Local Open Scope string_scope.
Set Warnings "-register-all".

(** ** JavaScript string built-ins used by the sources *)
Module JsString.

(** [s.startsWith(p)] *)
Definition startsWith (s p : string) : bool := String.prefix p s.

(** [s.endsWith(p)]: some suffix of [s] is [p]. *)
Fixpoint endsWith (s p : string) : bool :=
  if String.eqb s p then true
  else match s with
       | EmptyString => false
       | String _ s' => endsWith s' p
       end.

(** [s.lastIndexOf(p)], scanning left to right and remembering the last hit;
    [i] is the position of the head of [s], [acc] the last hit so far. *)
Fixpoint lastIndexOf_from (s p : string) (i acc : Z) : Z :=
  let acc' := if String.prefix p s then i else acc in
  match s with
  | EmptyString => acc'
  | String _ s' => lastIndexOf_from s' p (i + 1) acc'
  end.

Definition lastIndexOf (s p : string) : Z := lastIndexOf_from s p 0 (-1).

(** [s.slice(b, e)] with JavaScript's treatment of negative and
    out-of-range bounds. *)
Definition slice (s : string) (b e : Z) : string :=
  let len := Z.of_nat (String.length s) in
  let norm x := if (x <? 0)%Z then Z.max (len + x) 0 else Z.min x len in
  let b' := norm b in
  let e' := norm e in
  String.substring (Z.to_nat b') (Z.to_nat (Z.max (e' - b') 0)) s.

(** Drop the first [n] characters. *)
Fixpoint drop (n : nat) (s : string) : string :=
  match n, s with
  | O, _ => s
  | S _, EmptyString => EmptyString
  | S n', String _ s' => drop n' s'
  end.

(** [s.replace(p, r)] for a string pattern [p]: only the first (leftmost)
    occurrence is replaced.  The sources only pass [r = ''], so the special
    dollar patterns of the replacement never arise. *)
Fixpoint replace (s p r : string) : string :=
  if String.prefix p s then r ++ drop (String.length p) s
  else match s with
       | EmptyString => EmptyString
       | String c s' => String c (replace s' p r)
       end.

(** Decimal rendering of a non-negative integer, as [String(n)] does. *)
Definition string_of_nat (n : nat) : string :=
  NilZero.string_of_uint (Nat.to_uint n).

End JsString.
Import JsString.

(** ** The content preview dispatcher ([PreviewElement.tsx]) *)

(** The element returned by [PreviewContent]: three native media elements,
    three viewer components and the frame fallback, each with the props the
    source passes. *)
Inductive PreviewNode : Type :=
| Img (src alt title : string)
| Video (src title : string)
| Audio (src title : string)
| CsvViewerEl (src name : string)
| TextViewerEl (src name : string)
| JsonViewerEl (src name : string)
| FullSizeIframe (src title : string).

Definition PreviewContent (contentType name src : string) : PreviewNode :=
  if startsWith contentType "image/" then Img src name name
  else if startsWith contentType "video/" then Video src name
  else if startsWith contentType "audio/" then Audio src name
  else if startsWith contentType "text/csv" then CsvViewerEl src name
  else if startsWith contentType "text/" then TextViewerEl src name
  else if startsWith contentType "application/json" then JsonViewerEl src name
  else FullSizeIframe src name.

(** The seven renderer variants. *)
Inductive Variant : Type :=
| VImage | VVideo | VAudio | VCsv | VText | VJson | VFrame.

Definition variant_of (n : PreviewNode) : Variant :=
  match n with
  | Img _ _ _ => VImage
  | Video _ _ => VVideo
  | Audio _ _ => VAudio
  | CsvViewerEl _ _ => VCsv
  | TextViewerEl _ _ => VText
  | JsonViewerEl _ _ => VJson
  | FullSizeIframe _ _ => VFrame
  end.


(** ** JSON values and the JavaScript built-ins applied to them *)

(** A value produced by [JSON.parse] / [response.json()].  The property list
    of [JObject] is in the order [Object.entries] enumerates it. *)
Inductive JSON : Type :=
| JNull
| JBool (b : bool)
| JNumber (n : float)
| JString (s : string)
| JArray (items : list JSON)
| JObject (props : list (string * JSON)).

(** [Array.isArray(v) || (typeof v === 'object' && v !== null)] *)
Definition isObjectLike (v : JSON) : bool :=
  match v with
  | JArray _ | JObject _ => true
  | _ => false
  end.

(** The index keys ["i"], ["i+1"], ... of consecutive array slots. *)
Fixpoint indexed {A : Type} (i : nat) (l : list A) : list (string * A) :=
  match l with
  | [] => []
  | x :: l' => (string_of_nat i, x) :: indexed (S i) l'
  end.

(** The characters of a string as one-character strings. *)
Fixpoint chars (s : string) : list string :=
  match s with
  | EmptyString => []
  | String c s' => String c EmptyString :: chars s'
  end.

(** [Object.entries(v)]: the properties of an object, the indexed slots of
    an array or of a string, nothing for a number or a boolean ([null] is
    handled by the callers that can meet it). *)
Definition Object_entries (v : JSON) : list (string * JSON) :=
  match v with
  | JArray items => indexed 0 items
  | JObject props => props
  | JString s => indexed 0 (map JString (chars s))
  | _ => []
  end.

(** [Object.keys(v)]; [None] is the TypeError thrown on [null]. *)
Definition Object_keys (v : JSON) : option (list string) :=
  match v with
  | JNull => None
  | _ => Some (map fst (Object_entries v))
  end.

(** JavaScript truthiness, as [||] and [!!] test it. *)
Definition truthy (v : JSON) : bool :=
  match v with
  | JNull => false
  | JBool b => b
  | JNumber n => negb (PrimFloat.eqb n 0%float) && PrimFloat.eqb n n
  | JString s => negb (String.eqb s "")
  | JArray _ | JObject _ => true
  end.

Fixpoint join (sep : string) (l : list string) : string :=
  match l with
  | [] => ""
  | [x] => x
  | x :: l' => x ++ sep ++ join sep l'
  end.

Section Builtins.

(** [Number.prototype.toString] and [JSON.stringify] belong to the language
    runtime; the development is parametric in them. *)
Variable Number_toString : float -> string.
Variable JSON_stringify : JSON -> string.

(** String conversion, as a template literal or [new Error(v)] applies it. *)
Fixpoint ToString (v : JSON) : string :=
  match v with
  | JNull => "null"
  | JBool true => "true"
  | JBool false => "false"
  | JNumber n => Number_toString n
  | JString s => s
  | JArray items =>
      join "," (map (fun x => match x with
                              | JNull => ""
                              | _ => ToString x
                              end) items)
  | JObject _ => "[object Object]"
  end.

(** *** The JSON tree ([convertToTree]) *)

(** [<ColoredValue $value={value}>{text}</ColoredValue>] *)
Record ColoredValue : Type := { cv_value : JSON; cv_text : string }.

(** [JsonValue]: the value rendered through [JSON.stringify]. *)
Definition JsonValue (value : JSON) : ColoredValue :=
  {| cv_value := value; cv_text := JSON_stringify value |}.

(** The [label] prop of a [TreeItem]: [<code><ColoredKey>{key}:</ColoredKey></code>],
    followed for an atomic entry by a space and the [JsonValue]. *)
Inductive Label : Type :=
| KeyLabel (key : string)
| KeyValueLabel (key : string) (value : ColoredValue).

(** What [convertToTree] returns: an array of [TreeItem] elements, or a bare
    [JsonValue] element.  A self-closing [TreeItem] has no children. *)
Inductive ReactNode : Type :=
| TreeItem (key nodeId : string) (label : Label) (children : option ReactNode)
| JsonValueEl (key : string) (value : ColoredValue)
| NodeArray (nodes : list ReactNode).

(** The template literal [`${keyPrefix}['${key}']`]. *)
Definition nodeIdOf (keyPrefix key : string) : string :=
  keyPrefix ++ "['" ++ key ++ "']".

(** The callback handed to [Object.entries(obj).map]; [recur] is
    [convertToTree] itself. *)
Definition treeEntry (recur : JSON -> string -> ReactNode)
    (keyPrefix : string) (entry : string * JSON) : ReactNode :=
  let '(key, value) := entry in
  if isObjectLike value then
    let nodeId := nodeIdOf keyPrefix key in
    TreeItem nodeId nodeId (KeyLabel key) (Some (recur value nodeId))
  else
    let nodeId := nodeIdOf keyPrefix key in
    TreeItem nodeId nodeId (KeyValueLabel key (JsonValue value)) None.

(** [convertToTree], by structural recursion on the value: the inner loops
    walk the entries of an array (with their index keys) and of an object. *)
Fixpoint convertToTree (obj : JSON) (keyPrefix : string) {struct obj} : ReactNode :=
  match obj with
  | JArray items =>
      NodeArray
        ((fix each (i : nat) (l : list JSON) {struct l} : list ReactNode :=
            match l with
            | [] => []
            | value :: l' =>
                treeEntry convertToTree keyPrefix (string_of_nat i, value)
                  :: each (S i) l'
            end) 0 items)
  | JObject props =>
      NodeArray
        ((fix each (l : list (string * JSON)) {struct l} : list ReactNode :=
            match l with
            | [] => []
            | (key, value) :: l' =>
                treeEntry convertToTree keyPrefix (key, value) :: each l'
            end) props)
  | _ => JsonValueEl (nodeIdOf keyPrefix (ToString obj)) (JsonValue obj)
  end.

(** The same function with its recursion as the source writes it, a call
    on each object-like entry of [Object.entries(obj)], bounded by [fuel]:
    [None] means the bound was reached before the call returned. *)
Definition treeEntry_fuel (recur : JSON -> string -> option ReactNode)
    (keyPrefix : string) (entry : string * JSON) : option ReactNode :=
  let '(key, value) := entry in
  if isObjectLike value then
    let nodeId := nodeIdOf keyPrefix key in
    match recur value nodeId with
    | Some children => Some (TreeItem nodeId nodeId (KeyLabel key) (Some children))
    | None => None
    end
  else
    let nodeId := nodeIdOf keyPrefix key in
    Some (TreeItem nodeId nodeId (KeyValueLabel key (JsonValue value)) None).

Fixpoint mapM {A B : Type} (f : A -> option B) (l : list A) : option (list B) :=
  match l with
  | [] => Some []
  | x :: l' =>
      match f x with
      | Some y => match mapM f l' with
                  | Some ys => Some (y :: ys)
                  | None => None
                  end
      | None => None
      end
  end.

Fixpoint convertToTree_fuel (fuel : nat) (obj : JSON) (keyPrefix : string)
  : option ReactNode :=
  match fuel with
  | O => None
  | S fuel' =>
      if isObjectLike obj then
        option_map NodeArray
          (mapM (treeEntry_fuel (convertToTree_fuel fuel') keyPrefix)
                (Object_entries obj))
      else Some (JsonValueEl (nodeIdOf keyPrefix (ToString obj)) (JsonValue obj))
  end.

(** The values [convertToTree] calls itself on, for one activation. *)
Definition recursiveCalls (obj : JSON) : list JSON :=
  if isObjectLike obj
  then filter isObjectLike (map snd (Object_entries obj))
  else [].

(** *** The viewers: state, mount effect, rendering *)

(** The one kind of effect the viewers run: [fetch(url)] followed by a
    promise chain.  [onBody body] is the state the chain sets when the
    response body is [body], [None] when the chain throws or rejects before
    it reaches the setter. *)
Inductive Effect (State : Type) : Type :=
| Fetch (url : string) (onBody : string -> option State).
Arguments Fetch {State} url onBody.

(** A function component with one [useState] cell and effects whose
    dependency list is empty, so that they run once, after mount. *)
Record Component (State View : Type) : Type := {
  initialState : State;
  mountEffects : list (Effect State);
  render : State -> View
}.
Arguments initialState {State View} _.
Arguments mountEffects {State View} _.
Arguments render {State View} _ _.

Definition fetchUrl {State : Type} (e : Effect State) : string :=
  match e with Fetch url _ => url end.

(** [network url] is the body the server answers with, [None] when the
    request fails. *)
Definition runEffect {State : Type} (network : string -> option string)
    (s : State) (e : Effect State) : State :=
  match e with
  | Fetch url onBody =>
      match network url with
      | Some body => match onBody body with
                     | Some s' => s'
                     | None => s
                     end
      | None => s
      end
  end.

Definition stateAfterMount {State View : Type} (c : Component State View)
    (network : string -> option string) : State :=
  fold_left (runEffect network) (mountEffects c) (initialState c).

(** [csv-parse] and [response.json()] are library code. [parseCsv data] is
    the [output] handed to the callback with [{ columns: true }], one record
    per row; [None] is an [undefined] output. *)
Definition CsvRecord : Type := list (string * string).
Variable parseCsv : string -> option (list CsvRecord).
Variable JSON_parse : string -> option JSON.

Record GridColDef : Type := {
  field : string; headerName : string; flex : nat; minWidth : nat
}.

Record DataGridProps : Type := {
  getRowId : CsvRecord -> string;
  rows : list CsvRecord;
  columns : list GridColDef
}.

(** [<DataGrid aria-label={name} {...dataGridProps} />] *)
Record DataGridEl : Type := { dg_label : string; dg_props : DataGridProps }.

Definition recordToJSON (row : CsvRecord) : JSON :=
  JObject (map (fun kv => (fst kv, JString (snd kv))) row).

Definition CsvViewer (name src : string)
  : Component (option DataGridProps) (option DataGridEl) :=
  {| initialState := None;
     mountEffects :=
       [Fetch src (fun data =>
          match parseCsv data with
          | Some ((first :: _) as output) =>
              Some (Some {| getRowId := fun row => JSON_stringify (recordToJSON row);
                            rows := output;
                            columns := map (fun f => {| field := f;
                                                        headerName := f;
                                                        flex := 1;
                                                        minWidth := 200 |})
                                           (map fst first) |})
          | _ => None
          end)];
     render := option_map (fun props => {| dg_label := name; dg_props := props |}) |}.

(** [name.split('.')] and [pop()]. *)
Fixpoint split (sep : ascii) (s : string) : list string :=
  match s with
  | EmptyString => [EmptyString]
  | String c s' =>
      if Ascii.eqb c sep then EmptyString :: split sep s'
      else match split sep s' with
           | h :: t => String c h :: t
           | [] => [String c EmptyString]
           end
  end.

Definition pop (l : list string) : option string :=
  match List.rev l with
  | [] => None
  | x :: _ => Some x
  end.

(** [<FullScreenSyntaxHighlighter aria-label language showLineNumbers>]
    with its text child (the theme object is styling only). *)
Record SyntaxHighlighterEl : Type := {
  sh_label : string;
  sh_language : option string;
  sh_showLineNumbers : bool;
  sh_content : string
}.

Definition TextViewer (name src : string) : Component string SyntaxHighlighterEl :=
  {| initialState := "";
     mountEffects := [Fetch src (fun data => Some data)];
     render := fun content =>
       {| sh_label := name;
          sh_language := pop (split "." name);
          sh_showLineNumbers := true;
          sh_content := content |} |}.

Record TreeViewProps : Type := {
  defaultExpanded : list string;
  children : ReactNode
}.

(** [<JsonTreeView aria-label={name} ... {...treeViewProps} />] *)
Record JsonTreeViewEl : Type := { tv_label : string; tv_props : TreeViewProps }.

Definition JsonViewer (name src : string)
  : Component (option TreeViewProps) (option JsonTreeViewEl) :=
  {| initialState := None;
     mountEffects :=
       [Fetch src (fun body =>
          match JSON_parse body with
          | Some data =>
              let children := convertToTree data "" in
              match Object_keys data with
              | Some keys =>
                  Some (Some {| defaultExpanded := keys; children := children |})
              | None => None
              end
          | None => None
          end)];
     render := option_map (fun props => {| tv_label := name; tv_props := props |}) |}.

(** The URLs fetched by the code of this repository when the node returned
    by [PreviewContent] is mounted.  [img], [video], [audio] and [iframe]
    are host elements: they receive [src] as an attribute and no component
    of the repository runs for them. *)
Definition mountFetches (n : PreviewNode) : list string :=
  match n with
  | CsvViewerEl src name => map fetchUrl (mountEffects (CsvViewer name src))
  | TextViewerEl src name => map fetchUrl (mountEffects (TextViewer name src))
  | JsonViewerEl src name => map fetchUrl (mountEffects (JsonViewer name src))
  | Img _ _ _ | Video _ _ | Audio _ _ | FullSizeIframe _ _ => []
  end.

(** What is on screen once the mount effects have settled. *)
Inductive Display : Type :=
| ShowHost (n : PreviewNode)
| ShowDataGrid (el : option DataGridEl)
| ShowHighlighter (el : SyntaxHighlighterEl)
| ShowTree (el : option JsonTreeViewEl).

Definition displayAfterMount (n : PreviewNode)
    (network : string -> option string) : Display :=
  match n with
  | CsvViewerEl src name =>
      let c := CsvViewer name src in ShowDataGrid (render c (stateAfterMount c network))
  | TextViewerEl src name =>
      let c := TextViewer name src in ShowHighlighter (render c (stateAfterMount c network))
  | JsonViewerEl src name =>
      let c := JsonViewer name src in ShowTree (render c (stateAfterMount c network))
  | Img _ _ _ | Video _ _ | Audio _ _ | FullSizeIframe _ _ => ShowHost n
  end.

(** *** The root error boundary *)

(** What [useRouteError()] can hand over: a route error response (the case
    [isRouteErrorResponse] recognises), an [Error] instance, or any other
    thrown value. *)
Inductive RouteError : Type :=
| ErrorResponse (status : nat) (statusText : string) (data : option JSON)
| ErrorInstance (message : string)
| OtherThrown (value : option JSON).

Inductive Html : Type :=
| Text (s : string)
| El (tag : string) (children : list Html)
| Document (title : option string) (children : list Html)
| Layout (children : list Html).

Inductive BoundaryOutcome : Type :=
| Renders (page : Html)
| Throws (message : string).

(** The outcome together with what was passed to [console.error]. *)
Record BoundaryResult : Type := {
  console : list RouteError;
  outcome : BoundaryOutcome
}.

(** [error.data || error.statusText], converted by [new Error(...)]. *)
Definition dataOrStatusText (data : option JSON) (statusText : string) : string :=
  match data with
  | Some d => if truthy d then ToString d else statusText
  | None => statusText
  end.

Definition statusPage (status : nat) (statusText : string) (message : Html) : Html :=
  Document (Some (string_of_nat status ++ " " ++ statusText))
    [Layout [El "h1" [Text (string_of_nat status ++ ": " ++ statusText)];
             message]].

Definition ErrorBoundary (error : RouteError) : BoundaryResult :=
  match error with
  | ErrorResponse status statusText data =>
      if Nat.eqb status 401 then
        {| console := [];
           outcome := Renders (statusPage status statusText
             (El "p" [Text "Oops! Looks like you tried to visit a page that you do not have access to."])) |}
      else if Nat.eqb status 404 then
        {| console := [];
           outcome := Renders (statusPage status statusText
             (El "p" [Text "Oops! Looks like you tried to visit a page that does not exist."])) |}
      else
        {| console := [];
           outcome := Throws (dataOrStatusText data statusText) |}
  | ErrorInstance message =>
      {| console := [error];
         outcome := Renders
           (Document (Some "Error!")
              [Layout [El "div"
                 [El "h1" [Text "There was an error"];
                  El "p" [Text message];
                  El "hr" [];
                  El "p" [Text "Hey, developer, you should replace this with what you want your users to see."]]]]) |}
  | OtherThrown _ =>
      {| console := []; outcome := Renders (El "h1" [Text "Unknown Error"]) |}
  end.

End Builtins.

(** ** Promises and SDK clients *)

(** How an awaited promise settles. *)
Inductive Outcome (A : Type) : Type :=
| Resolved (value : A)
| Rejected (reason : string).
Arguments Resolved {A} value.
Arguments Rejected {A} reason.

(** An async function talking to an SDK client: the commands it sent, in
    order, and how its own promise settles. *)
Definition Async (Cmd A : Type) : Type := (list Cmd * Outcome A)%type.

Definition ret {Cmd A : Type} (a : A) : Async Cmd A := ([], Resolved a).

Definition bind {Cmd A B : Type} (m : Async Cmd A) (f : A -> Async Cmd B)
  : Async Cmd B :=
  match m with
  | (sent, Resolved a) => let '(sent', r) := f a in ((sent ++ sent')%list, r)
  | (sent, Rejected e) => (sent, Rejected e)
  end.

Notation "'await' x <- m ;; k" := (bind m (fun x => k))
  (at level 61, x name, m at next level, right associativity).

(** [client.send(command)]: the command goes out and the client answers. *)
Definition send {Cmd R : Type} (client : Cmd -> Outcome R) (command : Cmd)
  : Async Cmd R := ([command], client command).

Definition sent {Cmd A : Type} (m : Async Cmd A) : list Cmd := fst m.
Definition settled {Cmd A : Type} (m : Async Cmd A) : Outcome A := snd m.

(** [redirect(url)]: a 302 response with a [Location] header. *)
Record Redirect : Type := { status : nat; Location : string }.
Definition redirect (url : string) : Redirect := {| status := 302; Location := url |}.

(** A template-literal hole [${x}] filled with a string or [undefined]. *)
Definition interpolate (x : option string) : string :=
  match x with
  | Some s => s
  | None => "undefined"
  end.

(** [a === b] on values that are a string or [undefined]. *)
Definition strictEq (a b : option string) : bool :=
  match a, b with
  | Some x, Some y => String.eqb x y
  | None, None => true
  | _, _ => false
  end.

(** ** The console home loader *)
Module Home.

Inductive LoaderResult : Type :=
| Data (services : list string)
| RedirectTo (response : Redirect).

(** [services] is what [getEnabledServices()] returned. *)
Definition loader (services : list string) : LoaderResult :=
  if Nat.ltb 1 (List.length services)
  then Data services
  else RedirectTo (redirect ("/" ++ interpolate (nth_error services 0))).

End Home.

(** ** The create-queue action ([sqs.queues._index/actions.ts]) *)
Module Sqs.

(** A [FormData] entry value: a string or a [File]. *)
Inductive FormDataEntryValue : Type :=
| FString (s : string)
| FFile (fileName : string).

(** [FormData]: the entries in document order; names may repeat. *)
Definition FormData : Type := list (string * FormDataEntryValue).

Definition has (formData : FormData) (name : string) : bool :=
  existsb (fun e => String.eqb (fst e) name) formData.

(** [formData.get(name)]: the first value under [name]; [None] is [null]. *)
Definition get (formData : FormData) (name : string) : option FormDataEntryValue :=
  option_map snd (find (fun e => String.eqb (fst e) name) formData).

Definition toString (v : FormDataEntryValue) : string :=
  match v with
  | FString s => s
  | FFile _ => "[object File]"
  end.

Definition Boolean_toString (b : bool) : string :=
  if b then "true" else "false".

Record QueueAttributes : Type := {
  FifoQueue : string;
  ContentBasedDeduplication : string
}.

Record CreateQueueCommand : Type := {
  QueueName : string;
  Attributes : QueueAttributes
}.

Definition createQueueAction {R : Type}
    (sqsClient : CreateQueueCommand -> Outcome R) (formData : FormData)
  : Async CreateQueueCommand Redirect :=
  let isFifo := has formData "fifo" in
  await _ <- send sqsClient
      {| QueueName := interpolate (option_map toString (get formData "name"))
                      ++ (if isFifo then ".fifo" else "");
         Attributes :=
           {| FifoQueue := Boolean_toString isFifo;
              ContentBasedDeduplication :=
                Boolean_toString (has formData "contentBasedDeduplication") |} |} ;;
  ret (redirect "/sqs/queues").

End Sqs.

(** ** The bucket listing loader ([s3.buckets.$id.($key)/route.tsx]) *)
Module S3.

(** SDK shapes; every field of the SDK types is optional. *)
Record CommonPrefix : Type := { Prefix : option string }.

Record _Object : Type := {
  Key : option string;
  Size : option Z;
  ETag : option string;
  StorageClass : option string
}.

Record ListObjectsV2Command : Type := {
  Bucket : option string;
  cmd_Prefix : option string;
  Delimiter : string
}.

Record ListObjectsV2Output : Type := {
  CommonPrefixes : option (list CommonPrefix);
  Contents : option (list _Object)
}.

(** Route parameters [params.id] and [params.key]. *)
Record Params : Type := { id : option string; key : option string }.

(** [{ ...commonPrefix, BucketName, DirName, BaseName }] *)
Record Directory : Type := {
  dir_spread : CommonPrefix;
  dir_BucketName : option string;
  dir_DirName : option string;
  dir_BaseName : option string
}.

(** [{ ...obj, BucketName, DirName, BaseName }] *)
Record EnrichedObject : Type := {
  obj_spread : _Object;
  obj_BucketName : option string;
  obj_DirName : option string;
  obj_BaseName : option string
}.

Record LoaderData : Type := {
  directories : list Directory;
  objects : list EnrichedObject;
  selectedObject : option EnrichedObject
}.

(** [x ?? d] *)
Definition orElse {A : Type} (x : option A) (d : A) : A :=
  match x with
  | Some a => a
  | None => d
  end.

(** [params.key ? base64UrlDecode(params.key) : undefined]: an empty
    parameter is falsy. *)
Definition decodeKey (base64UrlDecode : string -> string) (raw : option string)
  : option string :=
  match raw with
  | Some r => if String.eqb r "" then None else Some (base64UrlDecode r)
  | None => None
  end.

(** [key?.slice(0, key?.lastIndexOf('/') + 1)] *)
Definition listingPrefix (key : option string) : option string :=
  option_map (fun k => slice k 0 (lastIndexOf k "/" + 1)) key.

(** [obj.Key?.endsWith('/') && obj.Key !== prefix] *)
Definition isFolderMarker (prefix : option string) (obj : _Object) : bool :=
  match Key obj with
  | Some k => endsWith k "/" && negb (strictEq (Key obj) prefix)
  | None => false
  end.

(** [!obj.Key?.endsWith('/')] *)
Definition isPlainObject (obj : _Object) : bool :=
  match Key obj with
  | Some k => negb (endsWith k "/")
  | None => true
  end.

Definition folders (prefix : option string) (response : ListObjectsV2Output)
  : list CommonPrefix :=
  orElse (CommonPrefixes response) []
  ++ orElse (option_map
               (fun contents =>
                  map (fun obj => {| Prefix := Key obj |})
                      (filter (isFolderMarker prefix) contents))
               (Contents response)) [].

Definition plainObjects (response : ListObjectsV2Output) : list _Object :=
  orElse (option_map (filter isPlainObject) (Contents response)) [].

Definition enrichPrefix (bucket prefix : option string) (commonPrefix : CommonPrefix)
  : Directory :=
  {| dir_spread := commonPrefix;
     dir_BucketName := bucket;
     dir_DirName := prefix;
     dir_BaseName :=
       option_map (fun p => replace p (orElse prefix "") "") (Prefix commonPrefix) |}.

Definition enrichObject (bucket prefix : option string) (obj : _Object)
  : EnrichedObject :=
  {| obj_spread := obj;
     obj_BucketName := bucket;
     obj_DirName := prefix;
     obj_BaseName :=
       option_map (fun k => replace k (orElse prefix "") "") (Key obj) |}.

(** The part of [loader] after the SDK call has resolved. *)
Definition enrich (params_id key : option string) (response : ListObjectsV2Output)
  : LoaderData :=
  let prefix := listingPrefix key in
  let enrichedCommonPrefixes := map (enrichPrefix params_id prefix) (folders prefix response) in
  let enrichedContents := map (enrichObject params_id prefix) (plainObjects response) in
  {| directories := enrichedCommonPrefixes;
     objects := enrichedContents;
     selectedObject :=
       match key with
       | Some k =>
           if negb (String.eqb k "") && negb (endsWith k "/")
           then find (fun obj => strictEq (Key (obj_spread obj)) key) enrichedContents
           else None
       | None => None
       end |}.

Definition loader (base64UrlDecode : string -> string)
    (s3Client : ListObjectsV2Command -> Outcome ListObjectsV2Output)
    (params : Params) : Async ListObjectsV2Command LoaderData :=
  let key := decodeKey base64UrlDecode (key params) in
  let prefix := listingPrefix key in
  await listObjectsResponse <- send s3Client
      {| Bucket := id params; cmd_Prefix := prefix; Delimiter := "/" |} ;;
  ret (enrich (id params) key listObjectsResponse).

End S3.

(** ** Vocabulary of the statements *)

(** Measures on JSON values. *)
Fixpoint size (v : JSON) : nat :=
  match v with
  | JArray items => S (fold_right (fun x n => size x + n) 0 items)
  | JObject props => S (fold_right (fun kv n => size (snd kv) + n) 0 props)
  | _ => 1
  end.

Fixpoint depth (v : JSON) : nat :=
  match v with
  | JArray items => S (fold_right (fun x n => Nat.max (depth x) n) 0 items)
  | JObject props => S (fold_right (fun kv n => Nat.max (depth (snd kv)) n) 0 props)
  | _ => 0
  end.

(** [Reaches obj keys v]: [obj[k1][k2]...[kn]] is [v], every step going
    through an entry of an object or of an array. *)
Inductive Reaches : JSON -> list string -> JSON -> Prop :=
| Reaches_here obj : Reaches obj [] obj
| Reaches_step obj key value keys v :
    isObjectLike obj = true ->
    In (key, value) (Object_entries obj) ->
    Reaches value keys v ->
    Reaches obj (key :: keys) v.

(** The access path [['k1']['k2']...] appended to a prefix. *)
Definition renderPath (keyPrefix : string) (keys : list string) : string :=
  fold_left nodeIdOf keys keyPrefix.

(** [Item root t parent nodeId label]: in the tree [t], built with the
    prefix [root], a [TreeItem] with this node id and label occurs, and the
    node id of the item it hangs under is [parent] ([root] itself for the
    outermost items). *)
Inductive Item : string -> ReactNode -> string -> string -> Label -> Prop :=
| Item_top root nodes key nodeId label children :
    In (TreeItem key nodeId label children) nodes ->
    Item root (NodeArray nodes) root nodeId label
| Item_below root nodes key nodeId label children parent' nodeId' label' :
    In (TreeItem key nodeId label (Some children)) nodes ->
    Item nodeId children parent' nodeId' label' ->
    Item root (NodeArray nodes) parent' nodeId' label'.

(** The label [convertToTree] gives the entry [key: value]. *)
Definition labelOf (JSON_stringify : JSON -> string) (key : string) (value : JSON)
  : Label :=
  if isObjectLike value then KeyLabel key
  else KeyValueLabel key {| cv_value := value; cv_text := JSON_stringify value |}.

(** Position of the last ['/'] of a string, counted from its head. *)
Fixpoint lastSlash (s : string) : option nat :=
  match s with
  | EmptyString => None
  | String c s' =>
      match lastSlash s' with
      | Some n => Some (S n)
      | None => if Ascii.eqb c "/" then Some 0 else None
      end
  end.

(** The [<title>] a rendered page carries. *)
Definition pageTitle (page : Html) : option string :=
  match page with
  | Document title _ => title
  | _ => None
  end.

(** The [src] prop or attribute of a preview node. *)
Definition srcOf (n : PreviewNode) : string :=
  match n with
  | Img src _ _ | Video src _ | Audio src _ | FullSizeIframe src _
  | CsvViewerEl src _ | TextViewerEl src _ | JsonViewerEl src _ => src
  end.

(** Every piece of text a page shows, in document order. *)
Fixpoint texts (page : Html) : list string :=
  match page with
  | Text s => [s]
  | El _ children | Document _ children | Layout children =>
      flat_map texts children
  end.

(** [formData] holds at least one entry named [name]. *)
Definition containsField (formData : Sqs.FormData) (name : string) : Prop :=
  exists v, In (name, v) formData.

(** ** Sample inputs *)

(** A listing of [docs/] in which the service returns the folder marker
    [docs/] itself, one object and one common prefix. *)
Definition sampleResponse : S3.ListObjectsV2Output :=
  {| S3.CommonPrefixes := Some [{| S3.Prefix := Some "docs/img/" |}];
     S3.Contents :=
       Some [{| S3.Key := Some "docs/"; S3.Size := Some 0%Z;
                S3.ETag := None; S3.StorageClass := None |};
             {| S3.Key := Some "docs/a.txt"; S3.Size := Some 12%Z;
                S3.ETag := None; S3.StorageClass := None |}] |}.

Definition sampleParams : S3.Params :=
  {| S3.id := Some "bucket"; S3.key := Some "ZG9jcy9hLnR4dA" |}.

Definition sampleDecode (raw : string) : string := "docs/a.txt".

Definition sampleClient (command : S3.ListObjectsV2Command)
  : Outcome S3.ListObjectsV2Output := Resolved sampleResponse.

(** ** The rest of the routes *)

(** [s.indexOf(p)]: the first position at which [p] occurs, [-1] if none. *)
Fixpoint indexOf_from (s p : string) (i : Z) : Z :=
  if String.prefix p s then i
  else match s with
       | EmptyString => (-1)%Z
       | String _ s' => indexOf_from s' p (i + 1)
       end.

Definition indexOf (s p : string) : Z := indexOf_from s p 0.

(** [Promise.all]: resolved with all the values when every promise
    resolves, rejected as soon as one rejects.  No order in time exists
    between the promises of this model; the reason kept is that of the
    first rejected one in the list, and the sources never look at it. *)
Fixpoint Promise_all {A : Type} (l : list (Outcome A)) : Outcome (list A) :=
  match l with
  | [] => Resolved []
  | Resolved a :: l' =>
      match Promise_all l' with
      | Resolved values => Resolved (a :: values)
      | Rejected e => Rejected e
      end
  | Rejected e :: _ => Rejected e
  end.

(** [Promise.all(xs.map(x => f(x)))]: every call of the [map] is started,
    in order, before anything is awaited. *)
Definition all {Cmd A : Type} (calls : list (Async Cmd A)) : Async Cmd (list A) :=
  (concat (map fst calls), Promise_all (map snd calls)).

(** *** [deleteQueuesAction] ([sqs.queues._index/actions.ts]) *)
Module SqsQueues.

Record DeleteQueueCommand : Type := { QueueUrl : string }.

Definition deleteQueuesAction {R : Type}
    (sqsClient : DeleteQueueCommand -> Outcome R) (formData : Sqs.FormData)
  : Async DeleteQueueCommand Redirect :=
  let queuesToDelete :=
    S3.orElse (option_map (fun names => split "," (Sqs.toString names))
                          (Sqs.get formData "names")) [] in
  await _ <- all (map (fun queue => send sqsClient {| QueueUrl := queue |})
                      queuesToDelete) ;;
  ret (redirect "/sqs/queues").

End SqsQueues.

(** *** [URLSearchParams], as the URL standard defines the four methods the
    bucket page calls *)
Module URLSearchParams.

Definition t : Type := list (string * string).

Definition get (params : t) (name : string) : option string :=
  option_map snd (find (fun e => String.eqb (fst e) name) params).

Definition has (params : t) (name : string) : bool :=
  existsb (fun e => String.eqb (fst e) name) params.

(** [delete(name)]: every pair with this name goes. *)
Definition delete (params : t) (name : string) : t :=
  filter (fun e => negb (String.eqb (fst e) name)) params.

(** [set(name, value)]: the first pair with this name takes the value and
    the others go; without such a pair, one is appended. *)
Fixpoint set (params : t) (name value : string) : t :=
  match params with
  | [] => [(name, value)]
  | (n, v) :: rest =>
      if String.eqb n name then (n, value) :: delete rest name
      else (n, v) :: set rest name value
  end.

End URLSearchParams.

(** *** The bucket page ([s3.buckets.$id.($key)/route.tsx]) *)
Module Bucket.

(** What [action] reads of its arguments. *)
Record ActionArgs : Type := { method : string; params : S3.Params }.

Inductive ActionResult (A : Type) : Type :=
| Returns (value : A)
| ThrowsRedirect (response : Redirect).
Arguments Returns {A} value.
Arguments ThrowsRedirect {A} response.

(** [action]; [deleteObjectsAction] and [renameObjectAction] live in
    [./actions]. A [switch] compares with [===]. *)
Definition action {A : Type}
    (deleteObjectsAction renameObjectAction : ActionArgs -> A)
    (args : ActionArgs) : ActionResult A :=
  if String.eqb (method args) "DELETE" then Returns (deleteObjectsAction args)
  else if String.eqb (method args) "PATCH" then Returns (renameObjectAction args)
  else ThrowsRedirect
         (redirect ("/s3/buckets/" ++ interpolate (S3.id (params args))
                    ++ match S3.key (params args) with
                       | Some k => if String.eqb k "" then "" else "/" ++ k
                       | None => ""
                       end)).

(** [Boolean(s)] on a string. *)
Definition nonEmpty (s : string) : bool := negb (String.eqb s "").

(** [mergedSegments?.split('/').filter(Boolean) ?? []] *)
Definition segments (mergedSegments : option string) : list string :=
  S3.orElse (option_map (fun m => filter nonEmpty (split "/" m)) mergedSegments) [].

(** [selectedObject?.DirName ?? mergedSegments ?? ''] *)
Definition decodedBaseDir (selectedObject : option S3.EnrichedObject)
    (mergedSegments : option string) : string :=
  match match selectedObject with
        | Some o => S3.obj_DirName o
        | None => None
        end with
  | Some dirName => dirName
  | None => S3.orElse mergedSegments ""
  end.

(** The argument of [base64UrlEncode] in the breadcrumb of [segment]:
    [mergedSegments?.slice(0, mergedSegments?.indexOf(segment)
                              + segment.length + 1) ?? ''] *)
Definition crumbPath (mergedSegments : option string) (segment : string) : string :=
  S3.orElse
    (option_map
       (fun m => slice m 0 (indexOf m segment
                            + Z.of_nat (String.length segment) + 1))
       mergedSegments) "".

(** [searchParams.get('selection')?.split(',') ?? []] *)
Definition selectedObjects (searchParams : URLSearchParams.t) : list string :=
  S3.orElse (option_map (split ",") (URLSearchParams.get searchParams "selection")) [].

(** [searchParams.get('search') ?? ''] *)
Definition search (searchParams : URLSearchParams.t) : string :=
  S3.orElse (URLSearchParams.get searchParams "search") "".

(** The updater the search field passes to [setSearchParams] on change. *)
Definition onSearchChange (value : string) (previousParams : URLSearchParams.t)
  : URLSearchParams.t :=
  if nonEmpty value then URLSearchParams.set previousParams "search" value
  else URLSearchParams.delete previousParams "search".

(** The updater of the clear button. *)
Definition onSearchClear (previousParams : URLSearchParams.t) : URLSearchParams.t :=
  URLSearchParams.delete previousParams "search".

(** The updater of [onRowSelectionModelChange]. *)
Definition onRowSelectionModelChange (newSelection : list string)
    (previousParams : URLSearchParams.t) : URLSearchParams.t :=
  if Nat.ltb (List.length newSelection) 1
  then URLSearchParams.delete previousParams "selection"
  else URLSearchParams.set previousParams "selection" (join "," newSelection).

(** The [disabled] props of the delete and rename buttons and the [open]
    props of their dialogs. *)
Definition deleteDisabled (searchParams : URLSearchParams.t) : bool :=
  Nat.ltb (List.length (selectedObjects searchParams)) 1.

Definition renameDisabled (searchParams : URLSearchParams.t) : bool :=
  negb (Nat.eqb (List.length (selectedObjects searchParams)) 1).

Definition deleteDialogOpen (searchParams : URLSearchParams.t) : bool :=
  URLSearchParams.has searchParams "delete"
  && Nat.ltb 0 (List.length (selectedObjects searchParams)).

Definition renameDialogOpen (searchParams : URLSearchParams.t) : bool :=
  URLSearchParams.has searchParams "rename"
  && Nat.eqb (List.length (selectedObjects searchParams)) 1.

(** [selectedObjects[0] ?? ''], the object handed to the rename dialog. *)
Definition renameDialogObject (searchParams : URLSearchParams.t) : string :=
  S3.orElse (nth_error (selectedObjects searchParams) 0) "".

(** A dropped file: [File & { path?: string }]. *)
Record DroppedFile : Type := { file_name : string; file_path : option string }.

(** [formData.delete(name)] and [formData.append(name, value)]. *)
Definition formDelete (formData : Sqs.FormData) (name : string) : Sqs.FormData :=
  filter (fun e => negb (String.eqb (fst e) name)) formData.

Definition formAppend (formData : Sqs.FormData) (name : string)
    (value : Sqs.FormDataEntryValue) : Sqs.FormData :=
  List.app formData [(name, value)].

(** [formData.getAll(name)] *)
Definition formGetAll (formData : Sqs.FormData) (name : string)
  : list Sqs.FormDataEntryValue :=
  map snd (filter (fun e => String.eqb (fst e) name) formData).

(** The form data [onDrop] submits: [form] is [new FormData(formRef.current)],
    [None] when [formRef.current] is null, in which case nothing is
    submitted. *)
Definition onDrop (form : option Sqs.FormData) (acceptedFiles : list DroppedFile)
  : option Sqs.FormData :=
  match form with
  | None => None
  | Some formData =>
      Some (fold_left
              (fun data file =>
                 formAppend
                   (formAppend data "paths"
                      (Sqs.FString (S3.orElse (file_path file) (file_name file))))
                   "files" (Sqs.FFile (file_name file)))
              acceptedFiles
              (formDelete formData "files"))
  end.

End Bucket.

(** ** More vocabulary *)

(** The number of [TreeItem] elements of a tree. *)
Fixpoint countItems (t : ReactNode) : nat :=
  match t with
  | TreeItem _ _ _ children =>
      S (match children with
         | Some c => countItems c
         | None => 0
         end)
  | JsonValueEl _ _ => 0
  | NodeArray nodes => fold_right (fun n acc => countItems n + acc) 0 nodes
  end.

(** A tree with [p] put in front of every key and node id. *)
Fixpoint prefixIds (p : string) (t : ReactNode) : ReactNode :=
  match t with
  | TreeItem key nodeId label children =>
      TreeItem (p ++ key) (p ++ nodeId) label (option_map (prefixIds p) children)
  | JsonValueEl key value => JsonValueEl (p ++ key) value
  | NodeArray nodes => NodeArray (map (prefixIds p) nodes)
  end.

(** The node ids of the outermost items of a tree. *)
Definition topIds (t : ReactNode) : list string :=
  match t with
  | NodeArray nodes =>
      flat_map (fun n => match n with
                         | TreeItem _ nodeId _ _ => [nodeId]
                         | _ => []
                         end) nodes
  | TreeItem _ nodeId _ _ => [nodeId]
  | JsonValueEl _ _ => []
  end.

(** The key a label shows. *)
Definition labelKey (l : Label) : string :=
  match l with
  | KeyLabel key | KeyValueLabel key _ => key
  end.

(** The strings of a list, one after the other. *)
Definition glue (l : list string) : string := fold_right append "" l.

(** The string without the occurrences of the character. *)
Fixpoint removeChar (c : ascii) (s : string) : string :=
  match s with
  | EmptyString => EmptyString
  | String a s' => if Ascii.eqb a c then removeChar c s' else String a (removeChar c s')
  end.

(** The string has no occurrence of the character. *)
Fixpoint free (c : ascii) (s : string) : bool :=
  match s with
  | EmptyString => true
  | String a s' => negb (Ascii.eqb a c) && free c s'
  end.

(** The text of an access path: [['k1']['k2']...['kn']]. *)
Definition accessPath (keys : list string) : string :=
  glue (map (fun key => "['" ++ key ++ "']") keys).


(** No key met on an access path of the value contains a single quote. *)
Definition quoteFreeKeys (obj : JSON) : Prop :=
  forall keys v, Reaches obj keys v ->
    Forall (fun key => free "'" key = true) keys.

(** * Properties *)

(** ** Strings *)

Lemma prefix_comparable (p q s : string) :
  String.prefix p s = true -> String.prefix q s = true ->
  String.prefix p q = true \/ String.prefix q p = true.
Proof.
  revert q s; induction p as [|a p IH]; intros q s Hp Hq.
  - left; destruct q; reflexivity.
  - destruct q as [|b q]; [right; reflexivity|].
    destruct s as [|c s]; [discriminate|].
    simpl in *.
    destruct (ascii_dec a c) as [->|]; [|discriminate].
    destruct (ascii_dec b c) as [->|]; [|discriminate].
    destruct (ascii_dec c c) as [_|n]; [|now elim n].
    eauto.
Qed.

Lemma startsWith_exclusive (s p q : string) :
  String.prefix p q = false -> String.prefix q p = false ->
  startsWith s p = true -> startsWith s q = false.
Proof.
  unfold startsWith; intros Hpq Hqp Hp.
  destruct (String.prefix q s) eqn:Hq; [|reflexivity].
  destruct (prefix_comparable p q s Hp Hq); congruence.
Qed.

Lemma startsWith_weaken (s p q : string) :
  String.prefix q p = true -> startsWith s p = true -> startsWith s q = true.
Proof.
  unfold startsWith; revert p s; induction q as [|b q IH]; intros p s Hqp Hp.
  - destruct s; reflexivity.
  - destruct p as [|a p]; [discriminate|].
    destruct s as [|c s]; [discriminate|].
    simpl in *.
    destruct (ascii_dec b a) as [->|]; [|discriminate].
    destruct (ascii_dec a c) as [->|]; [|discriminate].
    eauto.
Qed.

Lemma append_empty_r (s : string) : s ++ "" = s.
Proof. induction s as [|c s IH]; simpl; [reflexivity|now rewrite IH]. Qed.

Lemma append_assoc (a b c : string) : (a ++ b) ++ c = a ++ (b ++ c).
Proof. induction a as [|x a IH]; simpl; [reflexivity | now rewrite IH]. Qed.

(** ** The dispatcher *)

Ltac mime_clash :=
  match goal with
  | H1 : startsWith ?s ?p = true, H2 : startsWith ?s ?q = true |- _ =>
      rewrite (startsWith_exclusive s p q eq_refl eq_refl H1) in H2; discriminate
  | H1 : startsWith ?s "text/csv" = true, H2 : startsWith ?s "text/" = false |- _ =>
      rewrite (startsWith_weaken s "text/csv" "text/" eq_refl H1) in H2; discriminate
  end.

(** C1. [PreviewContent] is a total function from MIME strings to the seven
    renderer variants, and the variant is decided by the prefix of the
    content type alone: image, video, audio, CSV and JSON each exactly on
    their prefix, the text viewer on ['text/'] once ['text/csv'] has been
    ruled out (the tests run in the order listed), the frame on none. *)
Theorem PreviewContent_selects_by_prefix (contentType name src : string) :
  let v := variant_of (PreviewContent contentType name src) in
  (v = VImage <-> startsWith contentType "image/" = true) /\
  (v = VVideo <-> startsWith contentType "video/" = true) /\
  (v = VAudio <-> startsWith contentType "audio/" = true) /\
  (v = VCsv <-> startsWith contentType "text/csv" = true) /\
  (v = VText <-> startsWith contentType "text/" = true /\
                 startsWith contentType "text/csv" = false) /\
  (v = VJson <-> startsWith contentType "application/json" = true) /\
  (v = VFrame <-> startsWith contentType "image/" = false /\
                  startsWith contentType "video/" = false /\
                  startsWith contentType "audio/" = false /\
                  startsWith contentType "text/" = false /\
                  startsWith contentType "application/json" = false).
Proof.
  unfold PreviewContent.
  destruct (startsWith contentType "image/") eqn:Himage;
  destruct (startsWith contentType "video/") eqn:Hvideo;
  destruct (startsWith contentType "audio/") eqn:Haudio;
  destruct (startsWith contentType "text/csv") eqn:Hcsv;
  destruct (startsWith contentType "text/") eqn:Htext;
  destruct (startsWith contentType "application/json") eqn:Hjson;
  try mime_clash; cbn;
  repeat split; intros; try discriminate; try reflexivity;
  repeat match goal with H : _ /\ _ |- _ => destruct H end; discriminate.
Qed.

(** C2. Among the content types that begin with ['text/'], exactly those
    that begin with ['text/csv'] get the CSV viewer and all the others the
    text viewer. *)
Theorem PreviewContent_csv_before_text (contentType name src : string) :
  startsWith contentType "text/" = true ->
  PreviewContent contentType name src =
    if startsWith contentType "text/csv"
    then CsvViewerEl src name
    else TextViewerEl src name.
Proof.
  intros Htext. unfold PreviewContent.
  rewrite (startsWith_exclusive contentType "text/" "image/" eq_refl eq_refl Htext).
  rewrite (startsWith_exclusive contentType "text/" "video/" eq_refl eq_refl Htext).
  rewrite (startsWith_exclusive contentType "text/" "audio/" eq_refl eq_refl Htext).
  rewrite Htext. reflexivity.
Qed.

(** ** The console home loader *)

(** C10. The home loader answers with the list of enabled services exactly
    when there are at least two of them; with one service it redirects to
    that service's page, and with none to ['/undefined']. *)
Theorem home_loader_cases (services : list string) :
  (Home.loader services = Home.Data services <-> 1 < List.length services) /\
  ((exists l, Home.loader services = Home.Data l) <-> 1 < List.length services) /\
  (List.length services <= 1 ->
     Home.loader services =
       Home.RedirectTo (redirect ("/" ++ interpolate (nth_error services 0)))) /\
  (forall service, services = [service] ->
     Home.loader services = Home.RedirectTo (redirect ("/" ++ service))) /\
  (services = [] ->
     Home.loader services = Home.RedirectTo (redirect "/undefined")).
Proof.
  unfold Home.loader.
  destruct (Nat.ltb 1 (List.length services)) eqn:Hlen.
  - apply Nat.ltb_lt in Hlen.
    repeat split; intros; try assumption; try (exists services; reflexivity);
      subst; simpl in *; lia.
  - apply Nat.ltb_ge in Hlen.
    repeat split; intros; try discriminate; try lia; subst; try reflexivity.
    destruct H as [l Hl]; discriminate.
Qed.

(** ** The create-queue action *)

Lemma has_containsField (formData : Sqs.FormData) (name : string) :
  Sqs.has formData name = true <-> containsField formData name.
Proof.
  unfold Sqs.has, containsField. rewrite existsb_exists. split.
  - intros [[n v] [Hin Heq]]. simpl in Heq. apply String.eqb_eq in Heq.
    subst. exists v. exact Hin.
  - intros [v Hin]. exists (name, v). split; [exact Hin|].
    simpl. apply String.eqb_refl.
Qed.

Lemma Boolean_toString_true (b : bool) :
  Sqs.Boolean_toString b = "true" <-> b = true.
Proof. destruct b; simpl; split; intros; congruence. Qed.

Lemma Boolean_toString_false (b : bool) :
  Sqs.Boolean_toString b = "false" <-> b = false.
Proof. destruct b; simpl; split; intros; congruence. Qed.

(** C8. For form data with a ['name'] field, [createQueueAction] sends one
    command and no more. Its queue name is the field's value, followed by
    ['.fifo'] exactly when a ['fifo'] field is present; [FifoQueue] and
    [ContentBasedDeduplication] are ['true'] or ['false'] according to the
    presence of ['fifo'] and of ['contentBasedDeduplication']. Once the
    client has answered, the action resolves to a redirect to
    ['/sqs/queues']. *)
Theorem createQueueAction_sends_one_command
    (R : Type) (sqsClient : Sqs.CreateQueueCommand -> Outcome R)
    (formData : Sqs.FormData) (name : Sqs.FormDataEntryValue) :
  Sqs.get formData "name" = Some name ->
  exists command,
    sent (Sqs.createQueueAction sqsClient formData) = [command] /\
    (containsField formData "fifo" ->
       Sqs.QueueName command = Sqs.toString name ++ ".fifo") /\
    (~ containsField formData "fifo" ->
       Sqs.QueueName command = Sqs.toString name) /\
    (Sqs.FifoQueue (Sqs.Attributes command) = "true" <->
       containsField formData "fifo") /\
    (Sqs.FifoQueue (Sqs.Attributes command) = "false" <->
       ~ containsField formData "fifo") /\
    (Sqs.ContentBasedDeduplication (Sqs.Attributes command) = "true" <->
       containsField formData "contentBasedDeduplication") /\
    (Sqs.ContentBasedDeduplication (Sqs.Attributes command) = "false" <->
       ~ containsField formData "contentBasedDeduplication") /\
    (forall answer, sqsClient command = Resolved answer ->
       settled (Sqs.createQueueAction sqsClient formData) =
         Resolved (redirect "/sqs/queues")).
Proof.
  intros Hname.
  unfold Sqs.createQueueAction, send, bind, ret, sent, settled.
  rewrite Hname. cbn [option_map interpolate].
  eexists. split.
  { destruct (sqsClient _); reflexivity. }
  cbn [Sqs.QueueName Sqs.Attributes Sqs.FifoQueue Sqs.ContentBasedDeduplication].
  assert (Hnot : forall n, Sqs.has formData n = false <-> ~ containsField formData n).
  { intros n. rewrite <- has_containsField.
    destruct (Sqs.has formData n); split; intros; congruence. }
  repeat split.
  - intros Hf. apply has_containsField in Hf. rewrite Hf. reflexivity.
  - intros Hf. apply Hnot in Hf. rewrite Hf.
    apply append_empty_r.
  - intros H. apply has_containsField, Boolean_toString_true, H.
  - intros H. apply Boolean_toString_true, has_containsField, H.
  - intros H. apply Hnot, Boolean_toString_false, H.
  - intros H. apply Boolean_toString_false, Hnot, H.
  - intros H. apply has_containsField, Boolean_toString_true, H.
  - intros H. apply Boolean_toString_true, has_containsField, H.
  - intros H. apply Hnot, Boolean_toString_false, H.
  - intros H. apply Boolean_toString_false, Hnot, H.
  - intros answer Hans. rewrite Hans. reflexivity.
Qed.

(** The instance of C8 on a form that asks for a FIFO queue named [jobs]. *)
Lemma createQueueAction_sends_one_command_witness :
  Sqs.get [("name", Sqs.FString "jobs"); ("fifo", Sqs.FString "on")] "name"
    = Some (Sqs.FString "jobs") /\
  exists command,
    sent (Sqs.createQueueAction (fun _ => Resolved tt)
            [("name", Sqs.FString "jobs"); ("fifo", Sqs.FString "on")]) = [command] /\
    Sqs.QueueName command = "jobs.fifo".
Proof.
  split; [reflexivity|].
  destruct (createQueueAction_sends_one_command unit (fun _ => Resolved tt)
              [("name", Sqs.FString "jobs"); ("fifo", Sqs.FString "on")]
              (Sqs.FString "jobs") eq_refl)
    as [command [Hsent [Hfifo _]]].
  exists command. split; [exact Hsent|].
  apply Hfifo. exists (Sqs.FString "on"). right. left. reflexivity.
Defined.

(** ** The root error boundary *)

Lemma string_of_nat_401 : string_of_nat 401 = "401".
Proof. reflexivity. Qed.

Lemma string_of_nat_404 : string_of_nat 404 = "404".
Proof. reflexivity. Qed.

(** C7. The outcome of [ErrorBoundary], case by case: a route error
    response with status 401 or 404 renders a page whose title is the status
    followed by the status text and whose heading shows both; a route error
    response with any other status renders nothing and throws an [Error]
    whose message is [error.data] when that is truthy and the status text
    otherwise; an [Error] instance renders a page that shows its message;
    any other value renders the bare heading ['Unknown Error']. Hence a page
    is rendered exactly when the error is not a route error response with a
    status other than 401 and 404. *)
Theorem ErrorBoundary_cases (Number_toString : float -> string) (error : RouteError) :
  let result := outcome (ErrorBoundary Number_toString error) in
  (forall status statusText data,
     error = ErrorResponse status statusText data ->
     (status = 401 \/ status = 404 ->
        exists page,
          result = Renders page /\
          pageTitle page = Some (string_of_nat status ++ " " ++ statusText) /\
          In (string_of_nat status ++ ": " ++ statusText) (texts page)) /\
     (status <> 401 -> status <> 404 ->
        (forall d, data = Some d -> truthy d = true ->
           result = Throws (ToString Number_toString d)) /\
        (forall d, data = Some d -> truthy d = false ->
           result = Throws statusText) /\
        (data = None -> result = Throws statusText))) /\
  (forall message,
     error = ErrorInstance message ->
     exists page, result = Renders page /\ In message (texts page)) /\
  (forall value,
     error = OtherThrown value ->
     result = Renders (El "h1" [Text "Unknown Error"])) /\
  ((exists page, result = Renders page) <->
   ~ (exists status statusText data,
        error = ErrorResponse status statusText data /\
        status <> 401 /\ status <> 404)).
Proof.
  cbv zeta. split; [|split; [|split]].
  - intros status statusText data ->. split.
    + intros [-> | ->]; cbn; eexists; (split; [reflexivity|]);
        (split; [reflexivity|]); left; reflexivity.
    + intros H401 H404. unfold ErrorBoundary.
      apply Nat.eqb_neq in H401, H404. rewrite H401, H404.
      cbn [outcome]. unfold dataOrStatusText.
      repeat split.
      * intros d -> Ht. rewrite Ht. reflexivity.
      * intros d -> Ht. rewrite Ht. reflexivity.
      * intros ->. reflexivity.
  - intros message ->. cbn. eexists. split; [reflexivity|].
    cbn. right. left. reflexivity.
  - intros value ->. reflexivity.
  - split.
    + intros [page Hpage] (status & statusText & data & -> & H401 & H404).
      unfold ErrorBoundary in Hpage.
      apply Nat.eqb_neq in H401, H404. rewrite H401, H404 in Hpage.
      discriminate.
    + intros Hnot. destruct error as [status statusText data|message|value].
      * unfold ErrorBoundary.
        destruct (Nat.eqb status 401) eqn:H401; [eexists; reflexivity|].
        destruct (Nat.eqb status 404) eqn:H404; [eexists; reflexivity|].
        exfalso. apply Hnot. exists status, statusText, data.
        apply Nat.eqb_neq in H401, H404. auto.
      * eexists; reflexivity.
      * eexists; reflexivity.
Qed.

(** ** JSON values: entries are smaller than the value that holds them *)

Lemma In_indexed {A : Type} (l : list A) (i : nat) (k : string) (x : A) :
  In (k, x) (indexed i l) -> In x l.
Proof.
  revert i; induction l as [|y l IH]; intros i; simpl; [tauto|].
  intros [Heq | Hin]; [left; congruence | right; eauto].
Qed.

Lemma size_item (items : list JSON) (v : JSON) :
  In v items -> size v <= fold_right (fun x n => size x + n) 0 items.
Proof.
  induction items as [|x items IH]; simpl; [tauto|].
  intros [-> | Hin]; [lia | specialize (IH Hin); lia].
Qed.

Lemma size_prop (props : list (string * JSON)) (k : string) (v : JSON) :
  In (k, v) props -> size v <= fold_right (fun kv n => size (snd kv) + n) 0 props.
Proof.
  induction props as [|x props IH]; simpl; [tauto|].
  intros [-> | Hin]; [simpl; lia | specialize (IH Hin); lia].
Qed.

Lemma depth_item (items : list JSON) (v : JSON) :
  In v items -> depth v <= fold_right (fun x n => Nat.max (depth x) n) 0 items.
Proof.
  induction items as [|x items IH]; simpl; [tauto|].
  intros [-> | Hin]; [lia | specialize (IH Hin); lia].
Qed.

Lemma depth_prop (props : list (string * JSON)) (k : string) (v : JSON) :
  In (k, v) props ->
  depth v <= fold_right (fun kv n => Nat.max (depth (snd kv)) n) 0 props.
Proof.
  induction props as [|x props IH]; simpl; [tauto|].
  intros [-> | Hin]; [simpl; lia | specialize (IH Hin); lia].
Qed.

Lemma size_entry (obj : JSON) (k : string) (v : JSON) :
  isObjectLike obj = true -> In (k, v) (Object_entries obj) ->
  size v < size obj.
Proof.
  destruct obj; try discriminate; intros _ Hin; simpl in *.
  - apply In_indexed in Hin. apply size_item in Hin. lia.
  - apply size_prop in Hin. lia.
Qed.

Lemma depth_entry (obj : JSON) (k : string) (v : JSON) :
  isObjectLike obj = true -> In (k, v) (Object_entries obj) ->
  depth v < depth obj.
Proof.
  destruct obj; try discriminate; intros _ Hin; simpl in *.
  - apply In_indexed in Hin. apply depth_item in Hin. lia.
  - apply depth_prop in Hin. lia.
Qed.

(** Induction on a JSON value through its entries. *)
Lemma JSON_entries_ind (P : JSON -> Prop) :
  (forall obj, isObjectLike obj = false -> P obj) ->
  (forall obj, isObjectLike obj = true ->
     (forall k v, In (k, v) (Object_entries obj) -> P v) -> P obj) ->
  forall obj, P obj.
Proof.
  intros Hatom Hentries obj.
  remember (size obj) as n eqn:Hn.
  revert obj Hn.
  induction n as [n IH] using (well_founded_induction lt_wf).
  intros obj ->.
  destruct (isObjectLike obj) eqn:Hobj; [|auto].
  apply Hentries; [exact Hobj|].
  intros k v Hin. apply (IH (size v)); [|reflexivity].
  eapply size_entry; eauto.
Qed.

(** ** The JSON tree *)

Section Tree.

Variable Number_toString : float -> string.
Variable JSON_stringify : JSON -> string.

Local Abbreviation convertToTree' := (convertToTree Number_toString JSON_stringify).
Local Abbreviation convertToTree_fuel' :=
  (convertToTree_fuel Number_toString JSON_stringify).
Local Abbreviation treeEntry' := (treeEntry JSON_stringify).
Local Abbreviation labelOf' := (labelOf JSON_stringify).

(** The [TreeItem] built for one entry. *)
Lemma treeEntry_item (recur : JSON -> string -> ReactNode)
    (keyPrefix key : string) (value : JSON) :
  treeEntry' recur keyPrefix (key, value) =
    TreeItem (nodeIdOf keyPrefix key) (nodeIdOf keyPrefix key)
      (labelOf' key value)
      (if isObjectLike value
       then Some (recur value (nodeIdOf keyPrefix key))
       else None).
Proof.
  unfold treeEntry, labelOf, JsonValue.
  destruct (isObjectLike value); reflexivity.
Qed.

(** The structural definition computes [Object.entries(obj).map(...)]. *)
Lemma convertToTree_entries (obj : JSON) (keyPrefix : string) :
  isObjectLike obj = true ->
  convertToTree' obj keyPrefix =
    NodeArray (map (treeEntry' convertToTree' keyPrefix) (Object_entries obj)).
Proof.
  destruct obj as [| | | |items|props]; try discriminate; intros _; simpl; f_equal.
  - generalize 0 as i.
    induction items as [|x items IH]; intros i; simpl; [reflexivity|].
    f_equal. apply IH.
  - induction props as [|[k v] props IH]; simpl; [reflexivity|].
    f_equal. apply IH.
Qed.

Lemma convertToTree_atom (obj : JSON) (keyPrefix : string) :
  isObjectLike obj = false ->
  convertToTree' obj keyPrefix =
    JsonValueEl (nodeIdOf keyPrefix (ToString Number_toString obj))
                {| cv_value := obj; cv_text := JSON_stringify obj |}.
Proof. destruct obj; try discriminate; reflexivity. Qed.

Lemma renderPath_snoc (keyPrefix : string) (keys : list string) (key : string) :
  renderPath keyPrefix (keys ++ [key]) = nodeIdOf (renderPath keyPrefix keys) key.
Proof. unfold renderPath. rewrite fold_left_app. reflexivity. Qed.

Lemma Item_of_entry (obj : JSON) (keyPrefix key : string) (value : JSON) :
  isObjectLike obj = true -> In (key, value) (Object_entries obj) ->
  In (treeEntry' convertToTree' keyPrefix (key, value))
     (map (treeEntry' convertToTree' keyPrefix) (Object_entries obj)).
Proof. intros _ Hin. apply in_map. exact Hin. Qed.

(** Every item of the tree sits at an access path of the value. *)
Lemma Item_path (obj : JSON) :
  forall keyPrefix parent nodeId label,
    Item keyPrefix (convertToTree' obj keyPrefix) parent nodeId label ->
    exists keys key v,
      Reaches obj (keys ++ [key]) v /\
      parent = renderPath keyPrefix keys /\
      nodeId = nodeIdOf parent key /\
      label = labelOf' key v.
Proof.
  induction obj as [obj Hatom | obj Hobj IH] using JSON_entries_ind;
    intros keyPrefix parent nodeId label Hitem.
  - rewrite convertToTree_atom in Hitem by assumption. inversion Hitem.
  - rewrite convertToTree_entries in Hitem by assumption.
    inversion Hitem as [root nodes k nid lbl ch Hin
                       | root nodes k nid lbl ch parent' nid' lbl' Hin Hsub]; subst.
    + apply in_map_iff in Hin. destruct Hin as [[key value] [Heq Hin]].
      rewrite treeEntry_item in Heq. injection Heq as _ Hnid Hlbl _.
      exists [], key, value. repeat split; auto.
      eapply Reaches_step; eauto. constructor.
    + apply in_map_iff in Hin. destruct Hin as [[key value] [Heq Hin]].
      rewrite treeEntry_item in Heq. injection Heq as _ Hnid _ Hch.
      destruct (isObjectLike value) eqn:Hvalue; [|discriminate].
      injection Hch as Hch. subst nid ch.
      destruct (IH key value Hin _ _ _ _ Hsub)
        as (keys & key' & v & Hreach & Hparent & Hnode & Hlabel).
      exists (key :: keys), key', v. repeat split; auto.
      eapply Reaches_step; eauto.
Qed.

(** Every access path of the value, of length at least one, has its item. *)
Lemma path_Item (keys : list string) :
  forall obj keyPrefix key v,
    Reaches obj (keys ++ [key]) v ->
    Item keyPrefix (convertToTree' obj keyPrefix)
         (renderPath keyPrefix keys)
         (nodeIdOf (renderPath keyPrefix keys) key)
         (labelOf' key v).
Proof.
  induction keys as [|k keys IH]; intros obj keyPrefix key v Hreach.
  - inversion Hreach as [|o k' value ks v' Hobj Hin Hrest]; subst.
    inversion Hrest; subst.
    rewrite convertToTree_entries by assumption.
    eapply Item_top. rewrite <- treeEntry_item.
    apply Item_of_entry; eauto.
  - simpl in Hreach.
    inversion Hreach as [|o k' value ks v' Hobj Hin Hrest]; subst.
    assert (Hvalue : isObjectLike value = true).
    { inversion Hrest; subst; [destruct keys; discriminate | assumption]. }
    rewrite convertToTree_entries by assumption.
    eapply Item_below.
    + pose proof (Item_of_entry obj keyPrefix k value Hobj Hin) as Hitem.
      rewrite treeEntry_item, Hvalue in Hitem. exact Hitem.
    + apply (IH value (nodeIdOf keyPrefix k) key v Hrest).
Qed.

(** *** Termination *)

Lemma mapM_all {A B : Type} (f : A -> option B) (g : A -> B) (l : list A) :
  (forall x, In x l -> f x = Some (g x)) -> mapM f l = Some (map g l).
Proof.
  induction l as [|x l IH]; intros Hall; simpl; [reflexivity|].
  rewrite (Hall x (or_introl eq_refl)).
  rewrite IH; [reflexivity|]. intros y Hy. apply Hall. right. exact Hy.
Qed.

(** With more fuel than the value is deep, the bounded recursion returns,
    and returns what the structural definition computes. *)
Lemma convertToTree_fuel_enough (obj : JSON) :
  forall keyPrefix fuel,
    depth obj < fuel ->
    convertToTree_fuel' fuel obj keyPrefix = Some (convertToTree' obj keyPrefix).
Proof.
  induction obj as [obj Hatom | obj Hobj IH] using JSON_entries_ind;
    intros keyPrefix fuel Hfuel.
  - destruct fuel as [|fuel]; [lia|]. simpl. rewrite Hatom.
    rewrite convertToTree_atom by assumption. reflexivity.
  - destruct fuel as [|fuel]; [lia|]. simpl. rewrite Hobj.
    rewrite convertToTree_entries by assumption.
    rewrite (mapM_all _ (treeEntry' convertToTree' keyPrefix)); [reflexivity|].
    intros [key value] Hin. unfold treeEntry_fuel, treeEntry.
    destruct (isObjectLike value) eqn:Hvalue; [|reflexivity].
    rewrite (IH key value Hin); [reflexivity|].
    pose proof (depth_entry obj key value Hobj Hin). lia.
Qed.

Lemma recursiveCalls_entry (obj v : JSON) :
  In v (recursiveCalls obj) <->
  isObjectLike obj = true /\ isObjectLike v = true /\
  exists key, In (key, v) (Object_entries obj).
Proof.
  unfold recursiveCalls. destruct (isObjectLike obj) eqn:Hobj.
  - rewrite filter_In, in_map_iff. split.
    + intros [[[key w] [Heq Hin]] Hv]. simpl in Heq. subst w.
      repeat split; auto. exists key. exact Hin.
    + intros (_ & Hv & key & Hin). split; [|exact Hv].
      exists (key, v). split; [reflexivity|exact Hin].
  - simpl. split; [tauto|]. intros [Habs _]. discriminate.
Qed.

(** One activation with fuel [S fuel] returns exactly when each of its
    recursive calls returns with fuel [fuel]: the calls listed by
    [recursiveCalls] are the ones the function makes. *)
Lemma convertToTree_fuel_calls (obj : JSON) (keyPrefix : string) (fuel : nat) :
  isObjectLike obj = true ->
  (convertToTree_fuel' (S fuel) obj keyPrefix <> None <->
   forall key v, In (key, v) (Object_entries obj) -> In v (recursiveCalls obj) ->
     convertToTree_fuel' fuel v (nodeIdOf keyPrefix key) <> None).
Proof.
  intros Hobj. simpl. rewrite Hobj.
  assert (Hcalls : forall key v, In (key, v) (Object_entries obj) ->
            (In v (recursiveCalls obj) <-> isObjectLike v = true)).
  { intros key v Hin. rewrite recursiveCalls_entry. split.
    - tauto.
    - intros Hv. repeat split; auto. exists key; exact Hin. }
  revert Hcalls. generalize (Object_entries obj) as entries.
  induction entries as [|[k w] entries IH]; intros Hcalls.
  - simpl. split; [intros _ key v []|discriminate].
  - simpl. unfold treeEntry_fuel at 1.
    assert (Hrest : forall key v, In (key, v) entries ->
              (In v (recursiveCalls obj) <-> isObjectLike v = true)).
    { intros key v Hin. apply (Hcalls key v). right. exact Hin. }
    specialize (IH Hrest).
    destruct (isObjectLike w) eqn:Hw.
    + destruct (convertToTree_fuel' fuel w (nodeIdOf keyPrefix k)) eqn:Hcall.
      * destruct (mapM _ entries) eqn:Hmap; simpl in *.
        -- split; [|discriminate]. intros _ key v [Heq | Hin] Hv.
           ++ injection Heq as <- <-. congruence.
           ++ destruct IH as [IH _]. apply IH; auto. discriminate.
        -- split; [congruence|]. intros Hall. exfalso.
           destruct IH as [_ IH]. apply IH; [|reflexivity].
           intros key v Hin Hv. apply Hall; auto.
      * simpl. split; [congruence|]. intros Hall. exfalso.
        apply (Hall k w); [left; reflexivity| |exact Hcall].
        apply (Hcalls k w); [left; reflexivity|exact Hw].
    + destruct (mapM _ entries) eqn:Hmap; simpl in *.
      * split; [|discriminate]. intros _ key v [Heq | Hin] Hv.
        -- injection Heq as <- <-.
           apply (Hcalls k w) in Hv; [congruence|left; reflexivity].
        -- destruct IH as [IH _]. apply IH; auto. discriminate.
      * split; [congruence|]. intros Hall. exfalso.
        destruct IH as [_ IH]. apply IH; [|reflexivity].
        intros key v Hin Hv. apply Hall; auto.
Qed.

(** C5. [convertToTree] terminates on every JSON value. Each recursive call
    is on an entry of the current object or array that is itself an object
    or an array, and that entry is strictly smaller than the value holding
    it; an atomic value makes no recursive call. These calls are the ones
    an activation waits for: it returns exactly when each of them does.
    Accordingly the recursion, run with any bound above the nesting depth
    of the value, returns a tree. *)
Theorem convertToTree_terminates (obj : JSON) (keyPrefix : string) :
  (forall v, In v (recursiveCalls obj) ->
     isObjectLike obj = true /\
     (exists key, In (key, v) (Object_entries obj)) /\
     size v < size obj) /\
  (isObjectLike obj = false -> recursiveCalls obj = []) /\
  (isObjectLike obj = true ->
     forall fuel,
       convertToTree_fuel' (S fuel) obj keyPrefix <> None <->
       forall key v, In (key, v) (Object_entries obj) -> In v (recursiveCalls obj) ->
         convertToTree_fuel' fuel v (nodeIdOf keyPrefix key) <> None) /\
  (forall fuel, depth obj < fuel ->
     convertToTree_fuel' fuel obj keyPrefix = Some (convertToTree' obj keyPrefix)) /\
  (exists tree, convertToTree_fuel' (S (depth obj)) obj keyPrefix = Some tree).
Proof.
  split; [|split; [|split; [|split]]].
  - intros v Hv. apply recursiveCalls_entry in Hv.
    destruct Hv as (Hobj & _ & key & Hin).
    repeat split; auto; [exists key; exact Hin|].
    eapply size_entry; eauto.
  - intros Hatom. unfold recursiveCalls. rewrite Hatom. reflexivity.
  - intros Hobj fuel. apply convertToTree_fuel_calls. exact Hobj.
  - intros fuel Hfuel. apply convertToTree_fuel_enough. exact Hfuel.
  - eexists. apply convertToTree_fuel_enough. lia.
Qed.

End Tree.

(** ** The listing prefix: the key up to and including its last slash *)

Lemma prefix_empty (s : string) : String.prefix "" s = true.
Proof. destruct s; reflexivity. Qed.

Lemma prefix_slash (c : ascii) (s : string) :
  String.prefix "/" (String c s) = Ascii.eqb c "/".
Proof.
  change (String.prefix "/" (String c s))
    with (if ascii_dec "/" c then String.prefix "" s else false).
  destruct (ascii_dec "/" c) as [<- | Hne].
  - rewrite prefix_empty. reflexivity.
  - symmetry. apply Ascii.eqb_neq. congruence.
Qed.

Lemma lastIndexOf_from_lastSlash (s : string) :
  forall i acc,
    lastIndexOf_from s "/" i acc =
      match lastSlash s with
      | Some n => (i + Z.of_nat n)%Z
      | None => acc
      end.
Proof.
  induction s as [|c s IH]; intros i acc.
  - reflexivity.
  - cbn [lastIndexOf_from lastSlash]. rewrite IH, prefix_slash.
    destruct (lastSlash s) as [n|]; [lia|].
    destruct (Ascii.eqb c "/"); [simpl; lia | reflexivity].
Qed.

Lemma lastSlash_lt (s : string) :
  forall n, lastSlash s = Some n -> n < String.length s.
Proof.
  induction s as [|c s IH]; intros n; simpl; [discriminate|].
  destruct (lastSlash s) as [m|].
  - intros [= <-]. specialize (IH m eq_refl). lia.
  - destruct (Ascii.eqb c "/"); [intros [= <-]; lia | discriminate].
Qed.

Lemma substring_0_0 (s : string) : String.substring 0 0 s = "".
Proof. destruct s; reflexivity. Qed.

(** The slice the loader takes, in terms of the last slash. *)
Lemma listing_slice (k : string) :
  slice k 0 (lastIndexOf k "/" + 1) =
    match lastSlash k with
    | Some n => String.substring 0 (S n) k
    | None => ""
    end.
Proof.
  unfold lastIndexOf. rewrite lastIndexOf_from_lastSlash.
  unfold slice. destruct (lastSlash k) as [n|] eqn:Hlast.
  - apply lastSlash_lt in Hlast.
    replace (0 <? 0)%Z with false by reflexivity.
    replace (0 + Z.of_nat n + 1 <? 0)%Z with false by (symmetry; apply Z.ltb_ge; lia).
    rewrite Z.min_l by lia. rewrite Z.min_l by lia.
    f_equal. lia.
  - replace (-1 + 1)%Z with 0%Z by reflexivity.
    replace (0 <? 0)%Z with false by reflexivity.
    rewrite Z.min_l by lia. cbn. apply substring_0_0.
Qed.

Lemma endsWith_cons (c : ascii) (s p : string) :
  endsWith s p = true -> endsWith (String c s) p = true.
Proof.
  intros H. cbn [endsWith]. destruct (String.eqb (String c s) p); auto.
Qed.

Lemma lastSlash_split (s : string) :
  forall n, lastSlash s = Some n ->
    endsWith (String.substring 0 (S n) s) "/" = true /\
    lastSlash (drop (S n) s) = None /\
    String.substring 0 (S n) s ++ drop (S n) s = s.
Proof.
  induction s as [|c s IH]; intros n Hn; [discriminate|].
  cbn [lastSlash] in Hn.
  destruct (lastSlash s) as [m|] eqn:Hlast.
  - injection Hn as <-. destruct (IH m eq_refl) as (Hends & Hrest & Heq).
    change (String.substring 0 (S (S m)) (String c s))
      with (String c (String.substring 0 (S m) s)).
    change (drop (S (S m)) (String c s)) with (drop (S m) s).
    repeat split.
    + apply endsWith_cons. exact Hends.
    + exact Hrest.
    + cbn [append]. f_equal. exact Heq.
  - destruct (Ascii.eqb c "/") eqn:Hc; [|discriminate].
    injection Hn as <-. apply Ascii.eqb_eq in Hc. subst c.
    change (String.substring 0 1 (String "/" s))
      with (String "/" (String.substring 0 0 s)).
    rewrite substring_0_0. change (drop 1 (String "/" s)) with s.
    repeat split; auto.
Qed.

Lemma lastSlash_none (s : string) :
  lastSlash s = None -> forall a b, s <> a ++ "/" ++ b.
Proof.
  induction s as [|c s IH]; intros Hlast a b Heq.
  - destruct a; discriminate.
  - simpl in Hlast. destruct (lastSlash s) eqn:Hs; [discriminate|].
    destruct a as [|c' a]; simpl in Heq.
    + injection Heq as -> _. discriminate.
    + injection Heq as _ Heq. apply (IH eq_refl a b Heq).
Qed.

(** The listing prefix is the longest prefix of the key that ends with a
    slash, and is empty when the key has none. *)
Lemma listingPrefix_spec (k : string) :
  exists dir rest,
    S3.listingPrefix (Some k) = Some dir /\
    k = dir ++ rest /\
    (forall a b, rest <> a ++ "/" ++ b) /\
    (dir = "" \/ endsWith dir "/" = true).
Proof.
  unfold S3.listingPrefix, option_map. rewrite listing_slice.
  destruct (lastSlash k) as [n|] eqn:Hlast.
  - destruct (lastSlash_split k n Hlast) as (Hends & Hrest & Heq).
    exists (String.substring 0 (S n) k), (drop (S n) k).
    repeat split; auto. apply lastSlash_none. exact Hrest.
  - exists "", k. repeat split; auto. apply lastSlash_none. exact Hlast.
Qed.

Lemma prefix_append_drop (p k : string) :
  String.prefix p k = true -> p ++ drop (String.length p) k = k.
Proof.
  revert k; induction p as [|a p IH]; intros k Hp; [reflexivity|].
  destruct k as [|c k]; [discriminate|]. simpl in *.
  destruct (ascii_dec a c) as [->|]; [|discriminate].
  f_equal. apply IH. exact Hp.
Qed.

(** Removing a pattern the string starts with removes that prefix. *)
Lemma replace_leading (k p : string) :
  startsWith k p = true -> p ++ replace k p "" = k.
Proof.
  unfold startsWith. intros Hp.
  assert (Hrep : replace k p "" = drop (String.length p) k).
  { destruct k; cbn [replace]; rewrite Hp; reflexivity. }
  rewrite Hrep. apply prefix_append_drop. exact Hp.
Qed.

Lemma replace_empty_pattern (k : string) : replace k "" "" = k.
Proof. destruct k; reflexivity. Qed.

Lemma strictEq_eq (a b : option string) : strictEq a b = true <-> a = b.
Proof.
  destruct a as [x|], b as [y|]; simpl; split; intros H;
    try discriminate; try reflexivity.
  - apply String.eqb_eq in H. congruence.
  - injection H as ->. apply String.eqb_refl.
Qed.

(** ** The bucket listing loader *)

Lemma loader_resolves (base64UrlDecode : string -> string)
    (s3Client : S3.ListObjectsV2Command -> Outcome S3.ListObjectsV2Output)
    (params : S3.Params) (response : S3.ListObjectsV2Output) :
  let key := S3.decodeKey base64UrlDecode (S3.key params) in
  let command := {| S3.Bucket := S3.id params;
                    S3.cmd_Prefix := S3.listingPrefix key;
                    S3.Delimiter := "/" |} in
  s3Client command = Resolved response ->
  S3.loader base64UrlDecode s3Client params =
    ([command], Resolved (S3.enrich (S3.id params) key response)).
Proof.
  cbv zeta. intros Hclient.
  unfold S3.loader, send, bind, ret. rewrite Hclient. reflexivity.
Qed.

Lemma In_objects (bucket key : option string) (response : S3.ListObjectsV2Output)
    (o : S3.EnrichedObject) :
  In o (S3.objects (S3.enrich bucket key response)) <->
  exists c,
    In c (S3.orElse (S3.Contents response) []) /\
    S3.isPlainObject c = true /\
    o = S3.enrichObject bucket (S3.listingPrefix key) c.
Proof.
  cbn [S3.enrich S3.objects]. rewrite in_map_iff. unfold S3.plainObjects.
  destruct (S3.Contents response) as [contents|]; cbn [option_map S3.orElse].
  - split.
    + intros [c [Heq Hin]]. apply filter_In in Hin. exists c. intuition auto.
    + intros (c & Hin & Hplain & Heq). exists c. split; [auto|].
      apply filter_In. auto.
  - split; [intros [c [_ []]] | intros (c & [] & _)].
Qed.

Lemma In_directories (bucket key : option string)
    (response : S3.ListObjectsV2Output) (d : S3.Directory) :
  In d (S3.directories (S3.enrich bucket key response)) <->
  exists cp,
    d = S3.enrichPrefix bucket (S3.listingPrefix key) cp /\
    (In cp (S3.orElse (S3.CommonPrefixes response) []) \/
     exists c,
       In c (S3.orElse (S3.Contents response) []) /\
       S3.isFolderMarker (S3.listingPrefix key) c = true /\
       cp = {| S3.Prefix := S3.Key c |}).
Proof.
  cbn [S3.enrich S3.directories]. rewrite in_map_iff. unfold S3.folders.
  split.
  - intros [cp [Heq Hin]]. exists cp. split; [auto|].
    apply in_app_or in Hin. destruct Hin as [Hin | Hin]; [left; exact Hin|].
    right. destruct (S3.Contents response) as [contents|];
      cbn [option_map S3.orElse] in *; [|destruct Hin].
    apply in_map_iff in Hin. destruct Hin as [c [Hcp Hin]].
    apply filter_In in Hin. exists c. intuition auto.
  - intros (cp & Heq & Hfrom). exists cp. split; [auto|].
    apply in_or_app. destruct Hfrom as [Hin | (c & Hin & Hmark & Hcp)];
      [left; exact Hin|].
    right. destruct (S3.Contents response) as [contents|];
      cbn [option_map S3.orElse] in *; [|destruct Hin].
    apply in_map_iff. exists c. split; [auto|]. apply filter_In. auto.
Qed.

Lemma baseName_of (prefix : option string) (k : string) :
  (forall dir, prefix = Some dir -> startsWith k dir = true ->
     dir ++ replace k (S3.orElse prefix "") "" = k) /\
  (prefix = None -> replace k (S3.orElse prefix "") "" = k).
Proof.
  split.
  - intros dir -> Hstarts. apply replace_leading. exact Hstarts.
  - intros ->. apply replace_empty_pattern.
Qed.


Lemma isFolderMarker_true (prefix : option string) (c : S3._Object) :
  S3.isFolderMarker prefix c = true <->
  exists k, S3.Key c = Some k /\ endsWith k "/" = true /\ S3.Key c <> prefix.
Proof.
  unfold S3.isFolderMarker. destruct (S3.Key c) as [k|] eqn:Hkey.
  - rewrite andb_true_iff, negb_true_iff. split.
    + intros [Hends Hneq]. exists k. repeat split; auto.
      intros Heq. apply strictEq_eq in Heq. congruence.
    + intros (k' & [= <-] & Hends & Hneq). split; [exact Hends|].
      destruct (strictEq (Some k) prefix) eqn:Heq; [|reflexivity].
      apply strictEq_eq in Heq. contradiction.
  - split; [discriminate|]. intros (k & Habs & _). discriminate.
Qed.

Lemma isPlainObject_true (c : S3._Object) :
  S3.isPlainObject c = true <->
  forall k, S3.Key c = Some k -> endsWith k "/" = false.
Proof.
  unfold S3.isPlainObject. destruct (S3.Key c) as [k|].
  - rewrite negb_true_iff. split.
    + intros Hends k' [= <-]. exact Hends.
    + intros H. apply H. reflexivity.
  - split; [intros _ k Habs; discriminate | reflexivity].
Qed.

Lemma plainObjects_filter (response : S3.ListObjectsV2Output) :
  S3.plainObjects response
    = filter S3.isPlainObject (S3.orElse (S3.Contents response) []).
Proof. unfold S3.plainObjects. destruct (S3.Contents response); reflexivity. Qed.

Lemma folders_app (prefix : option string) (response : S3.ListObjectsV2Output) :
  S3.folders prefix response
    = (S3.orElse (S3.CommonPrefixes response) []
       ++ map (fun c => {| S3.Prefix := S3.Key c |})
              (filter (S3.isFolderMarker prefix)
                      (S3.orElse (S3.Contents response) [])))%list.
Proof. unfold S3.folders. destruct (S3.Contents response); reflexivity. Qed.

(** C6. When the SDK call resolves, the loader resolves. What it returns
    are the entries of the answer: the objects are the [Contents] entries
    whose key does not end with a slash, in order, and the directories are
    the common prefixes followed by the [Contents] entries whose key ends
    with a slash and is not the listing prefix; each keeps the fields the
    SDK gave it. Every one of them carries [BucketName] equal to the
    requested bucket, [DirName] equal to the listing prefix, and [BaseName]
    equal to its [Key] (its [Prefix]) with the first occurrence of the
    listing prefix replaced by nothing. The listing prefix is the decoded
    key up to and including its last slash. For an entry whose key starts
    with the listing prefix, [DirName] followed by [BaseName] is the key;
    when there is no listing prefix, [BaseName] is the whole key. *)
Theorem loader_enriches_entries (base64UrlDecode : string -> string)
    (s3Client : S3.ListObjectsV2Command -> Outcome S3.ListObjectsV2Output)
    (params : S3.Params) (response : S3.ListObjectsV2Output) :
  let key := S3.decodeKey base64UrlDecode (S3.key params) in
  let prefix := S3.listingPrefix key in
  let contents := S3.orElse (S3.Contents response) [] in
  let commonPrefixes := S3.orElse (S3.CommonPrefixes response) [] in
  s3Client {| S3.Bucket := S3.id params;
              S3.cmd_Prefix := prefix;
              S3.Delimiter := "/" |} = Resolved response ->
  exists data,
    settled (S3.loader base64UrlDecode s3Client params) = Resolved data /\
    map S3.obj_spread (S3.objects data) = filter S3.isPlainObject contents /\
    map S3.dir_spread (S3.directories data)
      = (commonPrefixes
         ++ map (fun c => {| S3.Prefix := S3.Key c |})
                (filter (S3.isFolderMarker prefix) contents))%list /\
    (forall c, In c contents ->
       (forall k, S3.Key c = Some k -> endsWith k "/" = false) ->
       exists o, In o (S3.objects data) /\ S3.obj_spread o = c) /\
    (forall cp, In cp commonPrefixes ->
       exists d, In d (S3.directories data) /\ S3.dir_spread d = cp) /\
    (forall c k, In c contents -> S3.Key c = Some k ->
       endsWith k "/" = true -> Some k <> prefix ->
       exists d, In d (S3.directories data) /\
                 S3.dir_spread d = {| S3.Prefix := Some k |}) /\
    (forall k, key = Some k ->
       exists dir rest,
         prefix = Some dir /\ k = dir ++ rest /\
         (forall a b, rest <> a ++ "/" ++ b) /\
         (dir = "" \/ endsWith dir "/" = true)) /\
    (key = None -> prefix = None) /\
    (forall o, In o (S3.objects data) ->
       S3.obj_BucketName o = S3.id params /\
       S3.obj_DirName o = prefix /\
       S3.obj_BaseName o =
         option_map (fun k => replace k (S3.orElse prefix "") "")
                    (S3.Key (S3.obj_spread o)) /\
       forall k, S3.Key (S3.obj_spread o) = Some k ->
         (forall dir, S3.obj_DirName o = Some dir -> startsWith k dir = true ->
            exists base, S3.obj_BaseName o = Some base /\ dir ++ base = k) /\
         (S3.obj_DirName o = None -> S3.obj_BaseName o = Some k)) /\
    (forall d, In d (S3.directories data) ->
       S3.dir_BucketName d = S3.id params /\
       S3.dir_DirName d = prefix /\
       S3.dir_BaseName d =
         option_map (fun p => replace p (S3.orElse prefix "") "")
                    (S3.Prefix (S3.dir_spread d)) /\
       forall p, S3.Prefix (S3.dir_spread d) = Some p ->
         (forall dir, S3.dir_DirName d = Some dir -> startsWith p dir = true ->
            exists base, S3.dir_BaseName d = Some base /\ dir ++ base = p) /\
         (S3.dir_DirName d = None -> S3.dir_BaseName d = Some p)).
Proof.
  cbv zeta. intros Hclient.
  rewrite (loader_resolves _ _ _ _ Hclient). unfold settled. cbn [snd].
  eexists. split; [reflexivity|].
  set (key := S3.decodeKey base64UrlDecode (S3.key params)).
  split; [|split; [|split; [|split; [|split; [|split; [|split; [|split]]]]]]].
  - cbn [S3.enrich S3.objects]. rewrite map_map.
    cbn [S3.enrichObject S3.obj_spread]. rewrite map_id.
    apply plainObjects_filter.
  - cbn [S3.enrich S3.directories]. rewrite map_map.
    cbn [S3.enrichPrefix S3.dir_spread]. rewrite map_id.
    apply folders_app.
  - intros c Hin Hplain. eexists. split.
    + apply In_objects. exists c. split; [exact Hin|].
      split; [apply isPlainObject_true; exact Hplain | reflexivity].
    + reflexivity.
  - intros cp Hin. eexists. split.
    + apply In_directories. exists cp. split; [reflexivity|]. left. exact Hin.
    + reflexivity.
  - intros c k Hin Hk Hends Hneq. eexists. split.
    + apply In_directories. eexists. split; [reflexivity|]. right.
      exists c. split; [exact Hin|]. split; [|reflexivity].
      apply isFolderMarker_true. exists k. rewrite Hk. auto.
    + cbn [S3.enrichPrefix S3.dir_spread]. rewrite Hk. reflexivity.
  - intros k ->. destruct (listingPrefix_spec k) as (dir & rest & H).
    exists dir, rest. exact H.
  - intros ->. reflexivity.
  - intros o Ho. apply In_objects in Ho. destruct Ho as (c & _ & _ & ->).
    cbn [S3.enrichObject S3.obj_BucketName S3.obj_DirName S3.obj_BaseName
         S3.obj_spread].
    do 3 (split; [reflexivity|]).
    intros k Hk. rewrite Hk. cbn [option_map]. split.
    + intros dir Hdir Hstarts. eexists. split; [reflexivity|].
      apply (proj1 (baseName_of _ k) dir Hdir Hstarts).
    + intros Hnone. f_equal.
      apply (proj2 (baseName_of _ k) Hnone).
  - intros d Hd. apply In_directories in Hd. destruct Hd as (cp & -> & _).
    cbn [S3.enrichPrefix S3.dir_BucketName S3.dir_DirName S3.dir_BaseName
         S3.dir_spread].
    do 3 (split; [reflexivity|]).
    intros p Hp. rewrite Hp. cbn [option_map]. split.
    + intros dir Hdir Hstarts. eexists. split; [reflexivity|].
      apply (proj1 (baseName_of _ p) dir Hdir Hstarts).
    + intros Hnone. f_equal.
      apply (proj2 (baseName_of _ p) Hnone).
Qed.



(** ** The fetch-and-render lifecycle of the preview variants *)

Section Viewers.

Variable Number_toString : float -> string.
Variable JSON_stringify : JSON -> string.
Variable parseCsv : string -> option (list CsvRecord).
Variable JSON_parse : string -> option JSON.

Local Abbreviation mountFetches' :=
  (mountFetches Number_toString JSON_stringify parseCsv JSON_parse).
Local Abbreviation displayAfterMount' :=
  (displayAfterMount Number_toString JSON_stringify parseCsv JSON_parse).

Lemma PreviewContent_src (contentType name src : string) :
  srcOf (PreviewContent contentType name src) = src.
Proof.
  unfold PreviewContent.
  repeat match goal with |- context [if ?b then _ else _] => destruct b end;
    reflexivity.
Qed.

(** C3, as the code has it. The CSV, text and JSON variants are components
    that fetch the body from the given URL once, after mount, and nothing
    else. When the fetch completes, the text variant shows the body as it
    is; the CSV variant, when the parser yields at least one record, shows
    a grid with these records as rows and the fields of the first record as
    columns; the JSON variant, when the body parses to a value that has
    keys, shows the tree of that value, expanded at its top-level keys. The
    image, video, audio and frame variants fetch and parse nothing: the
    node is a host element that carries the URL as its [src], and it is
    what is displayed. *)
Theorem preview_fetch_lifecycle (contentType name src : string)
    (network : string -> option string) :
  let node := PreviewContent contentType name src in
  let v := variant_of node in
  srcOf node = src /\
  (v = VCsv \/ v = VText \/ v = VJson -> mountFetches' node = [src]) /\
  (v = VImage \/ v = VVideo \/ v = VAudio \/ v = VFrame ->
     mountFetches' node = [] /\ displayAfterMount' node network = ShowHost node) /\
  (forall body, network src = Some body ->
     (v = VText ->
        displayAfterMount' node network =
          ShowHighlighter {| sh_label := name;
                             sh_language := pop (split "." name);
                             sh_showLineNumbers := true;
                             sh_content := body |}) /\
     (v = VCsv ->
        forall first rest, parseCsv body = Some (first :: rest) ->
        exists grid,
          displayAfterMount' node network = ShowDataGrid (Some grid) /\
          dg_label grid = name /\
          rows (dg_props grid) = first :: rest /\
          map field (columns (dg_props grid)) = map fst first /\
          map headerName (columns (dg_props grid)) = map fst first) /\
     (v = VJson ->
        forall data keys,
          JSON_parse body = Some data -> Object_keys data = Some keys ->
          displayAfterMount' node network =
            ShowTree (Some {| tv_label := name;
                              tv_props :=
                                {| defaultExpanded := keys;
                                   children :=
                                     convertToTree Number_toString JSON_stringify
                                                   data "" |} |}))).
Proof.
  cbv zeta. split; [apply PreviewContent_src|].
  unfold PreviewContent.
  repeat match goal with |- context [if ?b then _ else _] => destruct b end;
    cbn [variant_of mountFetches displayAfterMount];
    (split; [intros; repeat match goal with
                            | H : _ \/ _ |- _ => destruct H
                            end; try discriminate; reflexivity|]);
    (split; [intros; repeat match goal with
                            | H : _ \/ _ |- _ => destruct H
                            end; try discriminate; split; reflexivity|]);
    intros body Hbody; (split; [|split]); intros Hv; try discriminate.
  - intros first rest Hparse.
    unfold stateAfterMount. cbn. rewrite Hbody, Hparse. cbn.
    eexists. split; [reflexivity|]. cbn.
    repeat split; try reflexivity; rewrite map_map; cbn; apply map_id.
  - unfold stateAfterMount. cbn. rewrite Hbody. reflexivity.
  - intros data keys Hparse Hkeys.
    unfold stateAfterMount. cbn. rewrite Hbody, Hparse, Hkeys. reflexivity.
Qed.

End Viewers.

(** C3 as stated fails: for an image no fetch is issued by the component
    tree, whatever the runtime functions are. *)
Lemma image_variant_fetches_nothing :
  mountFetches (fun _ => "") (fun _ => "") (fun _ => None) (fun _ => None)
    (PreviewContent "image/png" "cat.png" "/bucket/cat.png") = [] /\
  ~ (forall Number_toString JSON_stringify parseCsv JSON_parse
            (contentType name src : string),
       In src (mountFetches Number_toString JSON_stringify parseCsv JSON_parse
                 (PreviewContent contentType name src))).
Proof.
  split; [reflexivity|].
  intros Hall.
  exact (Hall (fun _ => "") (fun _ => "") (fun _ => None) (fun _ => None)
              "image/png" "cat.png" "/bucket/cat.png").
Qed.

(** ** Instances on concrete inputs *)

(** C2 at a CSV content type with a charset parameter. *)
Lemma PreviewContent_csv_before_text_witness :
  startsWith "text/csv; charset=utf-8" "text/" = true /\
  PreviewContent "text/csv; charset=utf-8" "data.csv" "/bucket/data.csv" =
    CsvViewerEl "/bucket/data.csv" "data.csv".
Proof.
  split; [reflexivity|].
  exact (PreviewContent_csv_before_text
           "text/csv; charset=utf-8" "data.csv" "/bucket/data.csv" eq_refl).
Defined.

Example PreviewContent_plain_text :
  PreviewContent "text/plain" "notes.txt" "/bucket/notes.txt" =
    TextViewerEl "/bucket/notes.txt" "notes.txt".
Proof. reflexivity. Qed.

Example PreviewContent_unknown :
  PreviewContent "application/pdf" "a.pdf" "/bucket/a.pdf" =
    FullSizeIframe "/bucket/a.pdf" "a.pdf".
Proof. reflexivity. Qed.

Example convertToTree_sample :
  convertToTree (fun _ => "1") (fun _ => "<json>")
    (JObject [("a", JArray [JNull]); ("b", JString "x")]) "" =
  NodeArray
    [TreeItem "['a']" "['a']" (KeyLabel "a")
       (Some (NodeArray
          [TreeItem "['a']['0']" "['a']['0']"
             (KeyValueLabel "0" {| cv_value := JNull; cv_text := "<json>" |})
             None]));
     TreeItem "['b']" "['b']"
       (KeyValueLabel "b" {| cv_value := JString "x"; cv_text := "<json>" |})
       None].
Proof. reflexivity. Qed.

Example loader_sample :
  S3.loader sampleDecode sampleClient sampleParams =
    ([{| S3.Bucket := Some "bucket"; S3.cmd_Prefix := Some "docs/";
         S3.Delimiter := "/" |}],
     Resolved
       {| S3.directories :=
            [{| S3.dir_spread := {| S3.Prefix := Some "docs/img/" |};
                S3.dir_BucketName := Some "bucket";
                S3.dir_DirName := Some "docs/";
                S3.dir_BaseName := Some "img/" |}];
          S3.objects :=
            [{| S3.obj_spread :=
                  {| S3.Key := Some "docs/a.txt"; S3.Size := Some 12%Z;
                     S3.ETag := None; S3.StorageClass := None |};
                S3.obj_BucketName := Some "bucket";
                S3.obj_DirName := Some "docs/";
                S3.obj_BaseName := Some "a.txt" |}];
          S3.selectedObject :=
            Some {| S3.obj_spread :=
                      {| S3.Key := Some "docs/a.txt"; S3.Size := Some 12%Z;
                         S3.ETag := None; S3.StorageClass := None |};
                    S3.obj_BucketName := Some "bucket";
                    S3.obj_DirName := Some "docs/";
                    S3.obj_BaseName := Some "a.txt" |} |}).
Proof. reflexivity. Qed.

(** C6 on the sample listing. *)
Lemma loader_enriches_entries_witness :
  sampleClient {| S3.Bucket := Some "bucket"; S3.cmd_Prefix := Some "docs/";
                  S3.Delimiter := "/" |} = Resolved sampleResponse /\
  exists data o,
    settled (S3.loader sampleDecode sampleClient sampleParams) = Resolved data /\
    In o (S3.objects data) /\
    S3.Key (S3.obj_spread o) = Some "docs/a.txt" /\
    S3.obj_BucketName o = Some "bucket" /\
    S3.obj_DirName o = Some "docs/" /\
    S3.obj_BaseName o = Some "a.txt".
Proof.
  split; [reflexivity|].
  destruct (loader_enriches_entries sampleDecode sampleClient sampleParams
              sampleResponse eq_refl)
    as (data & Hdata & _ & _ & Hreturned & _ & _ & _ & _ & Hobjects & _).
  assert (Hplain : forall k, Some "docs/a.txt" = Some k -> endsWith k "/" = false)
    by (intros k [= <-]; reflexivity).
  destruct (Hreturned
              {| S3.Key := Some "docs/a.txt"; S3.Size := Some 12%Z;
                 S3.ETag := None; S3.StorageClass := None |}
              (or_intror (or_introl eq_refl)) Hplain)
    as (o & Ho & Hspread).
  exists data, o. split; [exact Hdata|]. split; [exact Ho|].
  destruct (Hobjects o Ho) as (Hbucket & Hdir & Hbase & _).
  rewrite Hspread in Hbase.
  split; [rewrite Hspread; reflexivity|].
  split; [exact Hbucket|]. split; [exact Hdir | exact Hbase].
Defined.


Example home_loader_none :
  Home.loader [] = Home.RedirectTo {| status := 302; Location := "/undefined" |}.
Proof. reflexivity. Qed.

Example createQueueAction_without_name :
  sent (Sqs.createQueueAction (fun _ => Resolved tt) [("fifo", Sqs.FString "on")]) =
    [{| Sqs.QueueName := "undefined.fifo";
        Sqs.Attributes := {| Sqs.FifoQueue := "true";
                             Sqs.ContentBasedDeduplication := "false" |} |}].
Proof. reflexivity. Qed.

(** * Further properties *)

(** ** [split] and [join] *)

Lemma split_not_nil (c : ascii) (s : string) : split c s <> [].
Proof.
  induction s as [|a s IH]; simpl; [discriminate|].
  destruct (Ascii.eqb a c); [discriminate|].
  destruct (split c s); [contradiction | discriminate].
Qed.

Lemma join_cons (sep x : string) (l : list string) :
  l <> [] -> join sep (x :: l) = x ++ sep ++ join sep l.
Proof. destruct l; [contradiction | reflexivity]. Qed.

Lemma join_split (c : ascii) (s : string) :
  join (String c "") (split c s) = s.
Proof.
  induction s as [|a s IH]; [reflexivity|].
  cbn [split]. destruct (Ascii.eqb a c) eqn:Hac.
  - apply Ascii.eqb_eq in Hac. subst a.
    rewrite join_cons by apply split_not_nil. rewrite IH. reflexivity.
  - pose proof (split_not_nil c s) as Hne.
    destruct (split c s) as [|h t]; [contradiction|].
    destruct t as [|h' t].
    + simpl in *. congruence.
    + rewrite join_cons by discriminate.
      rewrite join_cons in IH by discriminate.
      cbn [append] in *. f_equal. exact IH.
Qed.

Lemma split_free (c : ascii) (s : string) :
  Forall (fun x => free c x = true) (split c s).
Proof.
  induction s as [|a s IH]; simpl.
  - constructor; [reflexivity | constructor].
  - destruct (Ascii.eqb a c) eqn:Hac.
    + constructor; [reflexivity | exact IH].
    + pose proof (split_not_nil c s) as Hne.
      destruct (split c s) as [|h t]; [contradiction|].
      inversion IH as [|? ? Hh Ht]; subst.
      constructor; [|exact Ht]. simpl. rewrite Hac, Hh. reflexivity.
Qed.

Lemma split_of_free (c : ascii) (x : string) :
  free c x = true -> split c x = [x].
Proof.
  induction x as [|a x IH]; simpl; [reflexivity|].
  intros H. apply andb_true_iff in H. destruct H as [Ha Hx].
  apply negb_true_iff in Ha. rewrite Ha, (IH Hx). reflexivity.
Qed.

Lemma split_app_sep (c : ascii) (x rest : string) :
  free c x = true -> split c (x ++ String c rest) = x :: split c rest.
Proof.
  induction x as [|a x IH]; simpl.
  - intros _. rewrite Ascii.eqb_refl. reflexivity.
  - intros H. apply andb_true_iff in H. destruct H as [Ha Hx].
    apply negb_true_iff in Ha. rewrite Ha, (IH Hx). reflexivity.
Qed.

Lemma split_join (c : ascii) (l : list string) :
  l <> [] -> Forall (fun x => free c x = true) l ->
  split c (join (String c "") l) = l.
Proof.
  induction l as [|x l IH]; intros Hne Hfree; [contradiction|].
  inversion Hfree as [|? ? Hx Hl]; subst.
  destruct l as [|y l].
  - simpl. apply split_of_free. exact Hx.
  - rewrite join_cons by discriminate.
    change (String c "" ++ join (String c "") (y :: l))
      with (String c (join (String c "") (y :: l))).
    rewrite split_app_sep by exact Hx.
    rewrite IH; [reflexivity | discriminate | exact Hl].
Qed.

(** ** The queue actions *)

Lemma get_none_containsField (formData : Sqs.FormData) (name : string) :
  Sqs.get formData name = None <-> ~ containsField formData name.
Proof.
  rewrite <- has_containsField. unfold Sqs.get, Sqs.has.
  induction formData as [|[n v] formData IH]; simpl.
  - split; [discriminate | reflexivity].
  - destruct (String.eqb n name); simpl.
    + split; [discriminate | intros H; elim H; reflexivity].
    + exact IH.
Qed.

Lemma all_send {Cmd R A : Type} (client : Cmd -> Outcome R) (mk : A -> Cmd)
    (l : list A) :
  all (map (fun x => send client (mk x)) l) =
    (map mk l, Promise_all (map (fun x => client (mk x)) l)).
Proof.
  unfold all. f_equal.
  - induction l as [|x l IH]; simpl; [reflexivity | now rewrite IH].
  - rewrite map_map. reflexivity.
Qed.

Lemma Promise_all_resolved {A : Type} (l : list (Outcome A)) :
  (exists values, Promise_all l = Resolved values) <->
  Forall (fun o => exists a, o = Resolved a) l.
Proof.
  induction l as [|o l IH]; simpl.
  - split; [constructor | eexists; reflexivity].
  - destruct o as [a|e].
    + destruct (Promise_all l) as [values|e'].
      * split; [|eexists; reflexivity].
        intros _. constructor; [eexists; reflexivity|].
        apply IH. eexists; reflexivity.
      * split.
        -- intros [values Habs]. discriminate.
        -- intros H. inversion H as [|? ? _ Hl]; subst.
           apply IH in Hl. destruct Hl as [values Habs]. discriminate.
    + split.
      * intros [values Habs]. discriminate.
      * intros H. inversion H as [|? ? [a Habs] _]; subst. discriminate.
Qed.

Lemma Promise_all_rejected {A : Type} (l : list (Outcome A)) (e : string) :
  Promise_all l = Rejected e -> In (Rejected e) l.
Proof.
  induction l as [|o l IH]; simpl; [discriminate|].
  destruct o as [a|e'].
  - destruct (Promise_all l) as [values|e'']; [discriminate|].
    intros [= <-]. right. apply IH. reflexivity.
  - intros [= <-]. left. reflexivity.
Qed.

Lemma deleteQueuesAction_run {R : Type}
    (sqsClient : SqsQueues.DeleteQueueCommand -> Outcome R)
    (formData : Sqs.FormData) :
  let urls := S3.orElse (option_map (fun names => split "," (Sqs.toString names))
                                    (Sqs.get formData "names")) [] in
  let answers := map (fun q => sqsClient {| SqsQueues.QueueUrl := q |}) urls in
  SqsQueues.deleteQueuesAction sqsClient formData =
    (map SqsQueues.Build_DeleteQueueCommand urls,
     match Promise_all answers with
     | Resolved _ => Resolved (redirect "/sqs/queues")
     | Rejected e => Rejected e
     end).
Proof.
  cbv zeta. unfold SqsQueues.deleteQueuesAction.
  rewrite (all_send sqsClient SqsQueues.Build_DeleteQueueCommand).
  unfold bind, ret.
  destruct (Promise_all _); [rewrite app_nil_r|]; reflexivity.
Qed.

(** X1. With a ['names'] field, [deleteQueuesAction] sends at least one
    [DeleteQueueCommand]; no queue URL it sends contains a comma, and the
    URLs joined by commas are the field's value. In particular an empty
    field sends one command with an empty URL. *)
Theorem deleteQueuesAction_urls (R : Type)
    (sqsClient : SqsQueues.DeleteQueueCommand -> Outcome R)
    (formData : Sqs.FormData) (names : Sqs.FormDataEntryValue) :
  Sqs.get formData "names" = Some names ->
  let urls := map SqsQueues.QueueUrl
                  (sent (SqsQueues.deleteQueuesAction sqsClient formData)) in
  urls <> [] /\
  Forall (fun url => free "," url = true) urls /\
  join "," urls = Sqs.toString names /\
  (Sqs.toString names = "" -> urls = [""]).
Proof.
  intros Hnames. cbv zeta. rewrite deleteQueuesAction_run. unfold sent.
  cbn [fst]. rewrite Hnames. cbn [option_map S3.orElse].
  rewrite map_map. cbn [SqsQueues.QueueUrl]. rewrite map_id.
  split; [apply split_not_nil|]. split; [apply split_free|].
  split; [apply join_split|]. intros ->. reflexivity.
Qed.

Lemma deleteQueuesAction_urls_witness :
  Sqs.get [("names", Sqs.FString "http://q/a,http://q/b")] "names"
    = Some (Sqs.FString "http://q/a,http://q/b") /\
  join "," (map SqsQueues.QueueUrl
              (sent (SqsQueues.deleteQueuesAction (fun _ => Resolved tt)
                       [("names", Sqs.FString "http://q/a,http://q/b")])))
    = "http://q/a,http://q/b".
Proof.
  split; [reflexivity|].
  exact (proj1 (proj2 (proj2
    (deleteQueuesAction_urls unit (fun _ => Resolved tt)
       [("names", Sqs.FString "http://q/a,http://q/b")]
       (Sqs.FString "http://q/a,http://q/b") eq_refl)))).
Defined.

(** X2. Without a ['names'] field, [deleteQueuesAction] sends nothing and
    resolves to the redirect to ['/sqs/queues'], whatever the client. *)
Theorem deleteQueuesAction_without_names (R : Type)
    (sqsClient : SqsQueues.DeleteQueueCommand -> Outcome R)
    (formData : Sqs.FormData) :
  ~ containsField formData "names" ->
  SqsQueues.deleteQueuesAction sqsClient formData =
    ([], Resolved (redirect "/sqs/queues")).
Proof.
  intros Hnone. apply get_none_containsField in Hnone.
  rewrite deleteQueuesAction_run, Hnone. reflexivity.
Qed.

Lemma deleteQueuesAction_without_names_witness :
  ~ containsField [("other", Sqs.FString "x")] "names" /\
  SqsQueues.deleteQueuesAction (fun _ => @Rejected unit "down")
    [("other", Sqs.FString "x")] = ([], Resolved (redirect "/sqs/queues")).
Proof.
  assert (H : ~ containsField [("other", Sqs.FString "x")] "names").
  { intros [v [Hin | []]]. discriminate. }
  split; [exact H|].
  exact (deleteQueuesAction_without_names unit (fun _ => Rejected "down")
           [("other", Sqs.FString "x")] H).
Defined.

(** X3. [deleteQueuesAction] sends the same commands whatever the client
    answers: a rejected deletion does not stop the later ones. It resolves,
    to the redirect, exactly when every command it sent was answered; when
    it rejects, its reason is that of one of the rejected commands. *)
Theorem deleteQueuesAction_outcome (R : Type)
    (sqsClient : SqsQueues.DeleteQueueCommand -> Outcome R)
    (formData : Sqs.FormData) :
  let run := SqsQueues.deleteQueuesAction sqsClient formData in
  (forall (R' : Type) (other : SqsQueues.DeleteQueueCommand -> Outcome R'),
     sent (SqsQueues.deleteQueuesAction other formData) = sent run) /\
  (settled run = Resolved (redirect "/sqs/queues") <->
   forall command, In command (sent run) ->
     exists answer, sqsClient command = Resolved answer) /\
  ((exists response, settled run = Resolved response) ->
   settled run = Resolved (redirect "/sqs/queues")) /\
  (forall reason, settled run = Rejected reason ->
     exists command, In command (sent run) /\
                     sqsClient command = Rejected reason).
Proof.
  cbv zeta. split; [|split; [|split]].
  - intros R' other. rewrite !deleteQueuesAction_run. reflexivity.
  - rewrite deleteQueuesAction_run. unfold sent, settled. cbn [fst snd].
    set (urls := S3.orElse _ []).
    pose proof (Promise_all_resolved
                  (map (fun q => sqsClient {| SqsQueues.QueueUrl := q |}) urls))
      as Hall.
    rewrite Forall_forall in Hall. split.
    + intros Hres command Hin. apply in_map_iff in Hin.
      destruct Hin as [q [<- Hq]].
      destruct Hall as [Hall _]. apply Hall.
      * destruct (Promise_all _); [eexists; reflexivity | discriminate].
      * apply in_map_iff. exists q. auto.
    + intros Hans. destruct Hall as [_ Hall].
      destruct Hall as [values ->]; [|reflexivity].
      intros o Ho. apply in_map_iff in Ho. destruct Ho as [q [<- Hq]].
      apply Hans. apply in_map. exact Hq.
  - rewrite deleteQueuesAction_run. unfold settled. cbn [snd].
    destruct (Promise_all _); [reflexivity|]. intros [response Habs].
    discriminate.
  - intros reason. rewrite deleteQueuesAction_run. unfold sent, settled.
    cbn [fst snd]. set (urls := S3.orElse _ []).
    destruct (Promise_all _) as [values|e] eqn:Hall; [discriminate|].
    intros [= <-]. apply Promise_all_rejected in Hall.
    apply in_map_iff in Hall. destruct Hall as [q [Hq Hin]].
    exists {| SqsQueues.QueueUrl := q |}. split; [|exact Hq].
    apply in_map. exact Hin.
Qed.

Lemma endsWith_refl (s : string) : endsWith s s = true.
Proof. destruct s; cbn [endsWith]; rewrite String.eqb_refl; reflexivity. Qed.

Lemma endsWith_append (a b : string) : endsWith (a ++ b) b = true.
Proof.
  induction a as [|c a IH]; [apply endsWith_refl|].
  cbn [append]. apply endsWith_cons. exact IH.
Qed.

Lemma createQueueAction_run {R : Type}
    (sqsClient : Sqs.CreateQueueCommand -> Outcome R) (formData : Sqs.FormData) :
  let command :=
    {| Sqs.QueueName :=
         interpolate (option_map Sqs.toString (Sqs.get formData "name"))
         ++ (if Sqs.has formData "fifo" then ".fifo" else "");
       Sqs.Attributes :=
         {| Sqs.FifoQueue := Sqs.Boolean_toString (Sqs.has formData "fifo");
            Sqs.ContentBasedDeduplication :=
              Sqs.Boolean_toString (Sqs.has formData "contentBasedDeduplication") |} |} in
  Sqs.createQueueAction sqsClient formData =
    ([command],
     match sqsClient command with
     | Resolved _ => Resolved (redirect "/sqs/queues")
     | Rejected e => Rejected e
     end).
Proof.
  cbv zeta. unfold Sqs.createQueueAction, send, bind, ret.
  destruct (sqsClient _); reflexivity.
Qed.

(** X4. Whatever the form holds, the command [createQueueAction] sends
    keeps the two FIFO settings in step: when [FifoQueue] is ['true'] the
    queue name ends with ['.fifo'], and when it is ['false'] the queue name
    is the submitted name with nothing added. *)
Theorem createQueueAction_fifo_suffix (R : Type)
    (sqsClient : Sqs.CreateQueueCommand -> Outcome R) (formData : Sqs.FormData) :
  Forall (fun command =>
            (Sqs.FifoQueue (Sqs.Attributes command) = "true" ->
               endsWith (Sqs.QueueName command) ".fifo" = true) /\
            (Sqs.FifoQueue (Sqs.Attributes command) = "false" ->
               Sqs.QueueName command =
                 interpolate (option_map Sqs.toString (Sqs.get formData "name"))))
         (sent (Sqs.createQueueAction sqsClient formData)).
Proof.
  rewrite createQueueAction_run. unfold sent. cbn [fst].
  constructor; [|constructor].
  cbn [Sqs.QueueName Sqs.Attributes Sqs.FifoQueue].
  destruct (Sqs.has formData "fifo"); cbn [Sqs.Boolean_toString]; split;
    intros H; try discriminate.
  - apply endsWith_append.
  - apply append_empty_r.
Qed.

(** X5. [createQueueAction] sends its one command whatever the client
    answers; it resolves, to the redirect, exactly when the client answers
    the command, and a rejection of the command is the rejection of the
    action: no redirect is produced then. *)
Theorem createQueueAction_outcome (R : Type)
    (sqsClient : Sqs.CreateQueueCommand -> Outcome R) (formData : Sqs.FormData) :
  exists command,
    sent (Sqs.createQueueAction sqsClient formData) = [command] /\
    (forall (R' : Type) (other : Sqs.CreateQueueCommand -> Outcome R'),
       sent (Sqs.createQueueAction other formData) = [command]) /\
    (forall reason,
       sqsClient command = Rejected reason <->
       settled (Sqs.createQueueAction sqsClient formData) = Rejected reason) /\
    ((exists answer, sqsClient command = Resolved answer) <->
     settled (Sqs.createQueueAction sqsClient formData) =
       Resolved (redirect "/sqs/queues")).
Proof.
  eexists. split; [rewrite createQueueAction_run; reflexivity|].
  split; [intros R' other; rewrite createQueueAction_run; reflexivity|].
  rewrite createQueueAction_run. unfold settled. cbn [snd].
  destruct (sqsClient _) as [answer|e]; split.
  - intros reason. split; discriminate.
  - split; [reflexivity | intros _; eexists; reflexivity].
  - intros reason. split; intros [= ->]; reflexivity.
  - split; [intros [answer Habs]; discriminate | discriminate].
Qed.

(** X6. When the form has no ['name'] field the queue name sent is the
    text ['undefined'], with ['.fifo'] after it for a FIFO queue; when the
    field is a file, it is ['[object File]'] likewise. *)
Theorem createQueueAction_name_missing (R : Type)
    (sqsClient : Sqs.CreateQueueCommand -> Outcome R) (formData : Sqs.FormData) :
  let suffix := if Sqs.has formData "fifo" then ".fifo" else "" in
  (~ containsField formData "name" ->
     map Sqs.QueueName (sent (Sqs.createQueueAction sqsClient formData))
       = ["undefined" ++ suffix]) /\
  (forall fileName, Sqs.get formData "name" = Some (Sqs.FFile fileName) ->
     map Sqs.QueueName (sent (Sqs.createQueueAction sqsClient formData))
       = ["[object File]" ++ suffix]).
Proof.
  cbv zeta. rewrite createQueueAction_run. unfold sent. cbn [fst map Sqs.QueueName].
  split.
  - intros Hnone. apply get_none_containsField in Hnone. rewrite Hnone.
    reflexivity.
  - intros fileName ->. reflexivity.
Qed.

(** ** More on the bucket listing loader *)

Lemma lastSlash_free (s : string) : lastSlash s = None <-> free "/" s = true.
Proof.
  induction s as [|c s IH]; simpl; [tauto|].
  destruct (lastSlash s) as [n|].
  - split; [discriminate|]. intros H. apply andb_true_iff in H.
    destruct H as [_ H]. apply IH in H. discriminate.
  - destruct (Ascii.eqb c "/"); simpl.
    + split; discriminate.
    + split; intros _; [apply IH|]; reflexivity.
Qed.

Lemma listingPrefix_split (k : string) :
  exists dir rest,
    S3.listingPrefix (Some k) = Some dir /\
    k = dir ++ rest /\
    free "/" rest = true /\
    (dir = "" \/ endsWith dir "/" = true).
Proof.
  unfold S3.listingPrefix, option_map. rewrite listing_slice.
  destruct (lastSlash k) as [n|] eqn:Hlast.
  - destruct (lastSlash_split k n Hlast) as (Hends & Hrest & Heq).
    exists (String.substring 0 (S n) k), (drop (S n) k).
    repeat split; auto. apply lastSlash_free. exact Hrest.
  - exists "", k. repeat split; auto. apply lastSlash_free. exact Hlast.
Qed.

Lemma startsWith_append (a b : string) : startsWith (a ++ b) a = true.
Proof.
  unfold startsWith. induction a as [|c a IH]; [apply prefix_empty|].
  simpl. destruct (ascii_dec c c) as [_|Hne]; [exact IH | now elim Hne].
Qed.

Lemma append_inj_l (a b c : string) : a ++ b = a ++ c -> b = c.
Proof.
  induction a as [|x a IH]; simpl; [auto|]. intros [= H]. auto.
Qed.

Lemma substring_full (s : string) : String.substring 0 (String.length s) s = s.
Proof. induction s as [|c s IH]; simpl; [reflexivity | now rewrite IH]. Qed.

Lemma endsWith_slash_lastSlash (k : string) :
  endsWith k "/" = true ->
  exists n, lastSlash k = Some n /\ S n = String.length k.
Proof.
  induction k as [|c k IH]; [discriminate|].
  cbn [endsWith lastSlash String.length].
  destruct (String.eqb (String c k) "/") eqn:Heq.
  - intros _. apply String.eqb_eq in Heq. injection Heq as -> ->.
    exists 0. split; reflexivity.
  - intros Hends. destruct (IH Hends) as (n & -> & Hlen).
    exists (S n). split; [reflexivity | congruence].
Qed.

(** A key that ends with a slash is its own listing prefix. *)
Lemma listingPrefix_folder (k : string) :
  endsWith k "/" = true -> S3.listingPrefix (Some k) = Some k.
Proof.
  intros Hends. unfold S3.listingPrefix, option_map. rewrite listing_slice.
  destruct (endsWith_slash_lastSlash k Hends) as (n & -> & Hlen).
  rewrite Hlen. rewrite substring_full. reflexivity.
Qed.

Lemma loader_settled (base64UrlDecode : string -> string)
    (s3Client : S3.ListObjectsV2Command -> Outcome S3.ListObjectsV2Output)
    (params : S3.Params) (data : S3.LoaderData) :
  let key := S3.decodeKey base64UrlDecode (S3.key params) in
  settled (S3.loader base64UrlDecode s3Client params) = Resolved data ->
  exists response,
    s3Client {| S3.Bucket := S3.id params;
                S3.cmd_Prefix := S3.listingPrefix key;
                S3.Delimiter := "/" |} = Resolved response /\
    data = S3.enrich (S3.id params) key response.
Proof.
  cbv zeta. unfold S3.loader, send, bind, ret, settled.
  destruct (s3Client _) as [response|e]; cbn [snd]; [|discriminate].
  intros [= <-]. exists response. split; reflexivity.
Qed.

(** X7. The loader sends exactly one [ListObjectsV2Command], whatever the
    client answers: for the requested bucket, with delimiter ['/'] and a
    prefix that is absent, empty or ends with a slash. It resolves exactly
    when the client answers, and a rejection of the SDK call is the
    rejection of the loader. *)
Theorem loader_sends_one_listing (base64UrlDecode : string -> string)
    (s3Client : S3.ListObjectsV2Command -> Outcome S3.ListObjectsV2Output)
    (params : S3.Params) :
  exists command,
    sent (S3.loader base64UrlDecode s3Client params) = [command] /\
    S3.Bucket command = S3.id params /\
    S3.Delimiter command = "/" /\
    (S3.cmd_Prefix command = None \/ S3.cmd_Prefix command = Some "" \/
     exists p, S3.cmd_Prefix command = Some p /\ endsWith p "/" = true) /\
    (S3.cmd_Prefix command = None <->
     S3.key params = None \/ S3.key params = Some "") /\
    (forall reason,
       s3Client command = Rejected reason <->
       settled (S3.loader base64UrlDecode s3Client params) = Rejected reason) /\
    ((exists response, s3Client command = Resolved response) <->
     exists data,
       settled (S3.loader base64UrlDecode s3Client params) = Resolved data).
Proof.
  eexists. unfold S3.loader, send, bind, ret, sent, settled.
  split; [destruct (s3Client _); reflexivity|].
  cbn [S3.Bucket S3.Delimiter S3.cmd_Prefix].
  split; [reflexivity|]. split; [reflexivity|]. split; [|split; [|split]].
  - destruct (S3.decodeKey base64UrlDecode (S3.key params)) as [k|] eqn:Hk;
      [|left; reflexivity].
    destruct (listingPrefix_split k) as (dir & rest & -> & _ & _ & [-> | Hends]);
      [right; left; reflexivity|].
    right. right. exists dir. auto.
  - unfold S3.decodeKey. destruct (S3.key params) as [raw|].
    + destruct (String.eqb raw "") eqn:Hraw.
      * apply String.eqb_eq in Hraw. subst raw. simpl. split; auto.
      * apply String.eqb_neq in Hraw. simpl. split; [discriminate|].
        intros [Habs | Habs]; [discriminate | congruence].
    + simpl. split; auto.
  - intros reason. destruct (s3Client _) as [response|e]; cbn [snd].
    + split; discriminate.
    + split; intros [= ->]; reflexivity.
  - destruct (s3Client _) as [response|e]; cbn [snd].
    + split; intros _; eexists; reflexivity.
    + split; intros [x Habs]; discriminate.
Qed.

(** X8. The object the loader selects splits the decoded key: its
    [DirName] followed by its [BaseName] is the key it was asked for, and
    the [BaseName] is not empty and has no slash. This needs nothing of the
    SDK answer. *)
Theorem loader_selected_splits_key (base64UrlDecode : string -> string)
    (s3Client : S3.ListObjectsV2Command -> Outcome S3.ListObjectsV2Output)
    (params : S3.Params) (data : S3.LoaderData) (o : S3.EnrichedObject) :
  settled (S3.loader base64UrlDecode s3Client params) = Resolved data ->
  S3.selectedObject data = Some o ->
  exists dir base,
    S3.obj_DirName o = Some dir /\
    S3.obj_BaseName o = Some base /\
    S3.decodeKey base64UrlDecode (S3.key params) = Some (dir ++ base) /\
    S3.Key (S3.obj_spread o) = Some (dir ++ base) /\
    base <> "" /\ free "/" base = true.
Proof.
  intros Hdata Hsel. apply loader_settled in Hdata.
  destruct Hdata as (response & _ & ->).
  cbn [S3.enrich S3.selectedObject] in Hsel.
  destruct (S3.decodeKey base64UrlDecode (S3.key params)) as [k|]; [|discriminate].
  destruct (negb (String.eqb k "") && negb (endsWith k "/")) eqn:Hguard;
    [|discriminate].
  apply andb_true_iff in Hguard. destruct Hguard as [Hne Hslash].
  apply negb_true_iff in Hne, Hslash. apply String.eqb_neq in Hne.
  apply find_some in Hsel. destruct Hsel as [Hin Hkey].
  apply strictEq_eq in Hkey.
  apply in_map_iff in Hin. destruct Hin as (c & <- & _).
  cbn [S3.enrichObject S3.obj_spread S3.obj_DirName S3.obj_BaseName] in *.
  destruct (listingPrefix_split k) as (dir & rest & Hdir & Hk & Hfree & Hshape).
  rewrite Hdir, Hkey. cbn [option_map S3.orElse].
  assert (Hbase : replace k dir "" = rest).
  { apply (append_inj_l dir). rewrite replace_leading; [exact Hk|].
    rewrite Hk. apply startsWith_append. }
  exists dir, rest. rewrite Hbase, <- Hk.
  repeat split; auto.
  intros ->. rewrite append_empty_r in Hk. subst dir.
  destruct Hshape as [-> | Hends]; [now elim Hne | congruence].
Qed.

Lemma loader_selected_splits_key_witness :
  settled (S3.loader sampleDecode sampleClient sampleParams)
    = Resolved (S3.enrich (Some "bucket") (Some "docs/a.txt") sampleResponse) /\
  exists o dir base,
    S3.selectedObject (S3.enrich (Some "bucket") (Some "docs/a.txt") sampleResponse)
      = Some o /\
    S3.obj_DirName o = Some dir /\ S3.obj_BaseName o = Some base /\
    dir ++ base = "docs/a.txt".
Proof.
  split; [reflexivity|].
  eexists.
  destruct (loader_selected_splits_key sampleDecode sampleClient sampleParams
              _ _ eq_refl eq_refl)
    as (dir & base & Hdir & Hbase & Hkey & _).
  exists dir, base. split; [reflexivity|]. split; [exact Hdir|].
  split; [exact Hbase|]. injection Hkey as Hkey. symmetry. exact Hkey.
Defined.

(** X9. When the decoded key ends with a slash (the page of a folder), the
    listing prefix is the whole key, every returned entry has it as
    [DirName], and nothing is selected, whatever the SDK answers. *)
Theorem loader_folder_key (base64UrlDecode : string -> string)
    (s3Client : S3.ListObjectsV2Command -> Outcome S3.ListObjectsV2Output)
    (params : S3.Params) (data : S3.LoaderData) (k : string) :
  settled (S3.loader base64UrlDecode s3Client params) = Resolved data ->
  S3.decodeKey base64UrlDecode (S3.key params) = Some k ->
  endsWith k "/" = true ->
  map S3.cmd_Prefix (sent (S3.loader base64UrlDecode s3Client params)) = [Some k] /\
  S3.selectedObject data = None /\
  Forall (fun o => S3.obj_DirName o = Some k) (S3.objects data) /\
  Forall (fun d => S3.dir_DirName d = Some k) (S3.directories data).
Proof.
  intros Hdata Hkey Hends.
  pose proof (listingPrefix_folder k Hends) as Hprefix.
  split.
  { unfold S3.loader, send, bind, ret, sent. rewrite Hkey, Hprefix.
    destruct (s3Client _); reflexivity. }
  apply loader_settled in Hdata. destruct Hdata as (response & _ & ->).
  rewrite Hkey. cbn [S3.enrich S3.selectedObject S3.objects S3.directories].
  rewrite Hends, andb_false_r. rewrite Hprefix.
  split; [reflexivity|]. split; apply Forall_forall; intros x Hx;
    apply in_map_iff in Hx; destruct Hx as (c & <- & _); reflexivity.
Qed.

Lemma loader_folder_key_witness :
  settled (S3.loader (fun _ => "docs/") sampleClient sampleParams)
    = Resolved (S3.enrich (Some "bucket") (Some "docs/") sampleResponse) /\
  S3.decodeKey (fun _ => "docs/") (S3.key sampleParams) = Some "docs/" /\
  endsWith "docs/" "/" = true /\
  S3.selectedObject (S3.enrich (Some "bucket") (Some "docs/") sampleResponse) = None.
Proof.
  split; [reflexivity|]. split; [reflexivity|]. split; [reflexivity|].
  exact (proj1 (proj2
    (loader_folder_key (fun _ => "docs/") sampleClient sampleParams
       _ "docs/" eq_refl eq_refl eq_refl))).
Defined.

(** X10. Without a key parameter, or with an empty one, the loader lists
    the bucket without a prefix: nothing is selected, every entry has no
    [DirName], and the [BaseName] of an entry is its whole [Key] (its whole
    [Prefix]). *)
Theorem loader_without_key (base64UrlDecode : string -> string)
    (s3Client : S3.ListObjectsV2Command -> Outcome S3.ListObjectsV2Output)
    (params : S3.Params) (data : S3.LoaderData) :
  settled (S3.loader base64UrlDecode s3Client params) = Resolved data ->
  S3.key params = None \/ S3.key params = Some "" ->
  S3.selectedObject data = None /\
  Forall (fun o => S3.obj_DirName o = None /\
                   S3.obj_BaseName o = S3.Key (S3.obj_spread o))
         (S3.objects data) /\
  Forall (fun d => S3.dir_DirName d = None /\
                   S3.dir_BaseName d = S3.Prefix (S3.dir_spread d))
         (S3.directories data).
Proof.
  intros Hdata Hnokey.
  assert (Hkey : S3.decodeKey base64UrlDecode (S3.key params) = None).
  { destruct Hnokey as [-> | ->]; reflexivity. }
  apply loader_settled in Hdata. destruct Hdata as (response & _ & ->).
  rewrite Hkey. cbn [S3.enrich S3.selectedObject S3.objects S3.directories].
  split; [reflexivity|].
  split; apply Forall_forall; intros x Hx;
    apply in_map_iff in Hx; destruct Hx as (c & <- & _);
    (split; [reflexivity|]); cbn.
  - destruct (S3.Key c) as [key|]; [|reflexivity].
    cbn. rewrite replace_empty_pattern. reflexivity.
  - destruct (S3.Prefix c) as [p|]; [|reflexivity].
    cbn. rewrite replace_empty_pattern. reflexivity.
Qed.

Lemma loader_without_key_witness :
  settled (S3.loader sampleDecode sampleClient
             {| S3.id := Some "bucket"; S3.key := None |})
    = Resolved (S3.enrich (Some "bucket") None sampleResponse) /\
  (@None string = None \/ @None string = Some "") /\
  S3.selectedObject (S3.enrich (Some "bucket") None sampleResponse) = None.
Proof.
  split; [reflexivity|]. split; [left; reflexivity|].
  exact (proj1
    (loader_without_key sampleDecode sampleClient
       {| S3.id := Some "bucket"; S3.key := None |} _ eq_refl
       (or_introl eq_refl))).
Defined.

Lemma filter_three {A : Type} (p q r : A -> bool) (l : list A) :
  (forall x, In x l ->
     (p x = true /\ q x = false /\ r x = false) \/
     (p x = false /\ q x = true /\ r x = false) \/
     (p x = false /\ q x = false /\ r x = true)) ->
  List.length (filter p l) + List.length (filter q l) + List.length (filter r l)
    = List.length l.
Proof.
  induction l as [|x l IH]; intros Hone; [reflexivity|].
  assert (Hl : List.length (filter p l) + List.length (filter q l)
               + List.length (filter r l) = List.length l).
  { apply IH. intros y Hy. apply Hone. right. exact Hy. }
  simpl.
  destruct (Hone x (or_introl eq_refl))
    as [(-> & -> & ->) | [(-> & -> & ->) | (-> & -> & ->)]]; simpl; lia.
Qed.

(** X11. The loader neither invents nor duplicates entries: the directories
    and objects it returns, together with the [Contents] entries it leaves
    out, are as many as the common prefixes and [Contents] entries of the
    answer; and the entries left out are exactly those whose key ends with
    a slash and is the listing prefix. The objects come in the order of
    [Contents]. *)
Theorem loader_conserves_entries (base64UrlDecode : string -> string)
    (s3Client : S3.ListObjectsV2Command -> Outcome S3.ListObjectsV2Output)
    (params : S3.Params) (response : S3.ListObjectsV2Output) :
  let key := S3.decodeKey base64UrlDecode (S3.key params) in
  let prefix := S3.listingPrefix key in
  let contents := S3.orElse (S3.Contents response) [] in
  let commonPrefixes := S3.orElse (S3.CommonPrefixes response) [] in
  let leftOut :=
    filter (fun c => negb (S3.isPlainObject c) && strictEq (S3.Key c) prefix)
           contents in
  s3Client {| S3.Bucket := S3.id params;
              S3.cmd_Prefix := prefix;
              S3.Delimiter := "/" |} = Resolved response ->
  exists data,
    settled (S3.loader base64UrlDecode s3Client params) = Resolved data /\
    List.length (S3.directories data) + List.length (S3.objects data)
      + List.length leftOut
      = List.length commonPrefixes + List.length contents /\
    map S3.obj_spread (S3.objects data) = filter S3.isPlainObject contents /\
    map S3.dir_spread (S3.directories data) =
      (commonPrefixes
       ++ map (fun c => {| S3.Prefix := S3.Key c |})
              (filter (S3.isFolderMarker prefix) contents))%list.
Proof.
  cbv zeta. intros Hclient.
  rewrite (loader_resolves _ _ _ _ Hclient). unfold settled. cbn [snd].
  eexists. split; [reflexivity|].
  set (prefix := S3.listingPrefix _).
  cbn [S3.enrich S3.directories S3.objects].
  assert (Hobjs : S3.plainObjects response
                  = filter S3.isPlainObject (S3.orElse (S3.Contents response) [])).
  { unfold S3.plainObjects. destruct (S3.Contents response); reflexivity. }
  assert (Hdirs : S3.folders prefix response
                  = (S3.orElse (S3.CommonPrefixes response) []
                     ++ map (fun c => {| S3.Prefix := S3.Key c |})
                            (filter (S3.isFolderMarker prefix)
                                    (S3.orElse (S3.Contents response) [])))%list).
  { unfold S3.folders. destruct (S3.Contents response); reflexivity. }
  subst prefix.
  rewrite !length_map, !map_map. cbn [S3.enrichObject S3.obj_spread
                                  S3.enrichPrefix S3.dir_spread].
  rewrite !map_id, Hobjs, Hdirs. split; [|split; reflexivity].
  rewrite length_app, length_map.
  set (prefix := S3.listingPrefix _).
  pose proof (filter_three S3.isPlainObject (S3.isFolderMarker prefix)
                (fun c => negb (S3.isPlainObject c) && strictEq (S3.Key c) prefix)
                (S3.orElse (S3.Contents response) [])) as Hthree.
  rewrite <- Hthree; [lia|].
  intros c _. unfold S3.isPlainObject, S3.isFolderMarker.
  destruct (S3.Key c) as [k|]; [|left; auto].
  destruct (endsWith k "/"), (strictEq (Some k) prefix); cbn; auto.
Qed.

Lemma loader_conserves_entries_witness :
  sampleClient {| S3.Bucket := Some "bucket"; S3.cmd_Prefix := Some "docs/";
                  S3.Delimiter := "/" |} = Resolved sampleResponse /\
  exists data,
    settled (S3.loader sampleDecode sampleClient sampleParams) = Resolved data /\
    List.length (S3.directories data) + List.length (S3.objects data) + 1 = 1 + 2.
Proof.
  split; [reflexivity|].
  destruct (loader_conserves_entries sampleDecode sampleClient sampleParams
              sampleResponse eq_refl) as (data & Hdata & Hcount & _).
  exists data. split; [exact Hdata | exact Hcount].
Defined.

(** ** The bucket page *)

Lemma startsWith_refl (s : string) : startsWith s s = true.
Proof.
  pose proof (startsWith_append s "") as H. rewrite append_empty_r in H. exact H.
Qed.

(** X12. The base directory the bucket page computes from the loader's
    data (the prefix of uploads and new folders) is always a prefix of the
    decoded key, and empty without a key. With an object selected it is the
    listing prefix, so it is empty or ends with a slash; with nothing
    selected it is the decoded key itself, which is the listing prefix only
    when the key ends with a slash. *)
Theorem page_base_directory (base64UrlDecode : string -> string)
    (s3Client : S3.ListObjectsV2Command -> Outcome S3.ListObjectsV2Output)
    (params : S3.Params) (data : S3.LoaderData) :
  settled (S3.loader base64UrlDecode s3Client params) = Resolved data ->
  let mergedSegments := S3.decodeKey base64UrlDecode (S3.key params) in
  let baseDir := Bucket.decodedBaseDir (S3.selectedObject data) mergedSegments in
  startsWith (S3.orElse mergedSegments "") baseDir = true /\
  (mergedSegments = None -> baseDir = "") /\
  (forall o, S3.selectedObject data = Some o ->
     S3.listingPrefix mergedSegments = Some baseDir /\
     (baseDir = "" \/ endsWith baseDir "/" = true)) /\
  (S3.selectedObject data = None -> baseDir = S3.orElse mergedSegments "") /\
  (forall k, mergedSegments = Some k -> endsWith k "/" = true ->
     baseDir = k /\ S3.listingPrefix mergedSegments = Some baseDir).
Proof.
  intros Hdata. cbv zeta.
  apply loader_settled in Hdata. destruct Hdata as (response & _ & ->).
  set (key := S3.decodeKey base64UrlDecode (S3.key params)).
  assert (Hsel : forall o,
            S3.selectedObject (S3.enrich (S3.id params) key response) = Some o ->
            exists k dir rest,
              key = Some k /\ endsWith k "/" = false /\
              S3.obj_DirName o = Some dir /\
              S3.listingPrefix key = Some dir /\ k = dir ++ rest /\
              (dir = "" \/ endsWith dir "/" = true)).
  { intros o Hsel. cbn [S3.enrich S3.selectedObject] in Hsel.
    destruct key as [k|]; [|discriminate].
    destruct (negb (String.eqb k "") && negb (endsWith k "/")) eqn:Hguard;
      [|discriminate].
    apply andb_true_iff in Hguard. destruct Hguard as [_ Hslash].
    apply negb_true_iff in Hslash.
    apply find_some in Hsel. destruct Hsel as [Hin _].
    apply in_map_iff in Hin. destruct Hin as (c & <- & _).
    destruct (listingPrefix_split k) as (dir & rest & Hdir & Hk & _ & Hshape).
    exists k, dir, rest. cbn [S3.enrichObject S3.obj_DirName]. auto 10. }
  destruct (S3.selectedObject (S3.enrich (S3.id params) key response))
    as [o|] eqn:Ho.
  - destruct (Hsel o eq_refl) as (k & dir & rest & Hk & Hslash & Hdir & Hpre & Hsplit & Hshape).
    unfold Bucket.decodedBaseDir. rewrite Hdir, Hk. cbn [S3.orElse].
    split; [rewrite Hsplit; apply startsWith_append|].
    split; [discriminate|].
    split; [intros o' _; rewrite <- Hk; auto|].
    split; [discriminate|].
    intros k' [= <-] Hends. congruence.
  - unfold Bucket.decodedBaseDir.
    split; [apply startsWith_refl|].
    split; [intros ->; reflexivity|].
    split; [discriminate|].
    split; [reflexivity|].
    intros k -> Hends. split; [reflexivity|].
    apply listingPrefix_folder. exact Hends.
Qed.

Lemma page_base_directory_witness :
  settled (S3.loader sampleDecode sampleClient sampleParams)
    = Resolved (S3.enrich (Some "bucket") (Some "docs/a.txt") sampleResponse) /\
  Bucket.decodedBaseDir
    (S3.selectedObject (S3.enrich (Some "bucket") (Some "docs/a.txt") sampleResponse))
    (Some "docs/a.txt") = "docs/" /\
  startsWith "docs/a.txt" "docs/" = true.
Proof.
  split; [reflexivity|]. split; [reflexivity|].
  exact (proj1 (page_base_directory sampleDecode sampleClient sampleParams
                  _ eq_refl)).
Defined.

(** X13. The breadcrumb segments of a key are the non-empty pieces between
    its slashes: none is empty, none contains a slash, and put one after the
    other they are the key with its slashes removed. Without a key there is
    no segment. *)
Theorem segments_of_key (mergedSegments : option string) :
  Forall (fun segment => segment <> "" /\ free "/" segment = true)
         (Bucket.segments mergedSegments) /\
  glue (Bucket.segments mergedSegments)
    = removeChar "/" (S3.orElse mergedSegments "") /\
  (mergedSegments = None -> Bucket.segments mergedSegments = []).
Proof.
  destruct mergedSegments as [m|]; cbn [Bucket.segments option_map S3.orElse];
    [|repeat split; constructor].
  split; [|split; [|discriminate]].
  - apply Forall_forall. intros x Hx. apply filter_In in Hx.
    destruct Hx as [Hin Hne]. split.
    + unfold Bucket.nonEmpty in Hne. apply negb_true_iff in Hne.
      apply String.eqb_neq. exact Hne.
    + pose proof (split_free "/" m) as Hfree. rewrite Forall_forall in Hfree.
      apply Hfree. exact Hin.
  - induction m as [|a m IH]; [reflexivity|].
    cbn [split removeChar]. destruct (Ascii.eqb a "/") eqn:Ha.
    + cbn [filter Bucket.nonEmpty String.eqb negb]. exact IH.
    + pose proof (split_not_nil "/" m) as Hne.
      destruct (split "/" m) as [|h t]; [contradiction|].
      cbn [filter] in *.
      change (Bucket.nonEmpty (String a h)) with true. cbn iota.
      cbn [glue fold_right append]. f_equal. rewrite <- IH.
      destruct h; reflexivity.
Qed.

Lemma length_append (a b : string) :
  String.length (a ++ b) = String.length a + String.length b.
Proof. induction a as [|c a IH]; simpl; [reflexivity | now rewrite IH]. Qed.

Lemma substring_0_prefix (n : nat) (s : string) :
  String.prefix (String.substring 0 n s) s = true.
Proof.
  revert s; induction n as [|n IH]; intros s.
  - rewrite substring_0_0. apply prefix_empty.
  - destruct s as [|c s]; [reflexivity|]. simpl.
    destruct (ascii_dec c c) as [_|Hne]; [apply IH | now elim Hne].
Qed.

Lemma substring_0_append (a b : string) :
  String.substring 0 (String.length a) (a ++ b) = a.
Proof.
  induction a as [|c a IH]; simpl; [apply substring_0_0 | now rewrite IH].
Qed.

Lemma slice_from_0 (s : string) (e : Z) :
  (0 <= e)%Z ->
  slice s 0 e = String.substring 0 (Nat.min (Z.to_nat e) (String.length s)) s.
Proof.
  intros He. unfold slice.
  replace (0 <? 0)%Z with false by reflexivity.
  replace (e <? 0)%Z with false by (symmetry; apply Z.ltb_ge; exact He).
  rewrite (Z.min_l 0) by lia. f_equal. lia.
Qed.

Lemma indexOf_from_bounds (s p : string) (i : Z) :
  (indexOf_from s p i = -1 \/ i <= indexOf_from s p i)%Z.
Proof.
  revert i; induction s as [|c s IH]; intros i; cbn [indexOf_from].
  - destruct (String.prefix p ""); [right; lia | left; reflexivity].
  - destruct (String.prefix p (String c s)); [right; lia|].
    destruct (IH (i + 1)%Z) as [-> | H]; [left; reflexivity | right; lia].
Qed.

Lemma indexOf_leading (seg rest : string) : indexOf (seg ++ rest) seg = 0%Z.
Proof.
  unfold indexOf.
  pose proof (startsWith_append seg rest) as H. unfold startsWith in H.
  destruct (seg ++ rest); cbn [indexOf_from]; rewrite H; reflexivity.
Qed.

(** X14. The path a breadcrumb links to is always a prefix of the decoded
    key. For the segment the key starts with it is that segment with its
    slash, or the whole key when the key is that segment alone. The path is
    cut after the first occurrence of the segment's text, wherever that is:
    in ['ab/b'] the breadcrumb of the segment ['b'] links to ['ab/']. *)
Theorem crumbPath_prefix (m segment : string) :
  startsWith m (Bucket.crumbPath (Some m) segment) = true /\
  (forall rest, m = segment ++ "/" ++ rest ->
     Bucket.crumbPath (Some m) segment = segment ++ "/") /\
  (m = segment -> Bucket.crumbPath (Some m) segment = m) /\
  Bucket.crumbPath None segment = "" /\
  (In "b" (Bucket.segments (Some "ab/b")) /\
   Bucket.crumbPath (Some "ab/b") "b" = "ab/").
Proof.
  split; [|split; [|split; [|split]]].
  - unfold Bucket.crumbPath, startsWith. cbn [option_map S3.orElse].
    rewrite slice_from_0; [apply substring_0_prefix|].
    unfold indexOf. destruct (indexOf_from_bounds m segment 0); lia.
  - intros rest ->. unfold Bucket.crumbPath. cbn [option_map S3.orElse].
    rewrite indexOf_leading. rewrite slice_from_0 by lia.
    replace (Nat.min _ _) with (String.length (segment ++ "/")).
    + change (segment ++ "/" ++ rest) with (segment ++ ("/" ++ rest)).
      replace (segment ++ ("/" ++ rest)) with ((segment ++ "/") ++ rest).
      * apply substring_0_append.
      * clear. induction segment as [|c s IH]; simpl; [reflexivity|].
        now rewrite IH.
    + rewrite !length_append. cbn [String.length]. lia.
  - intros <-. unfold Bucket.crumbPath. cbn [option_map S3.orElse].
    pose proof (indexOf_leading m "") as H. rewrite append_empty_r in H.
    rewrite H. rewrite slice_from_0 by lia.
    replace (Nat.min _ _) with (String.length m) by lia.
    apply substring_full.
  - reflexivity.
  - split; [right; left; reflexivity | reflexivity].
Qed.

(** ** The search parameters of the bucket page *)

Lemma get_set_same (ps : URLSearchParams.t) (name value : string) :
  URLSearchParams.get (URLSearchParams.set ps name value) name = Some value.
Proof.
  unfold URLSearchParams.get.
  induction ps as [|[n v] ps IH]; simpl.
  - rewrite String.eqb_refl. reflexivity.
  - destruct (String.eqb n name) eqn:Hn; simpl; rewrite Hn; [reflexivity|].
    exact IH.
Qed.

Lemma get_delete_other (ps : URLSearchParams.t) (name other : string) :
  other <> name ->
  URLSearchParams.get (URLSearchParams.delete ps name) other
    = URLSearchParams.get ps other.
Proof.
  intros Hne. unfold URLSearchParams.get, URLSearchParams.delete.
  induction ps as [|[n v] ps IH]; simpl; [reflexivity|].
  destruct (String.eqb n name) eqn:Hn; simpl.
  - apply String.eqb_eq in Hn. subst n.
    apply String.eqb_neq in Hne. rewrite String.eqb_sym, Hne. exact IH.
  - destruct (String.eqb n other); [reflexivity | exact IH].
Qed.

Lemma get_delete_same (ps : URLSearchParams.t) (name : string) :
  URLSearchParams.get (URLSearchParams.delete ps name) name = None.
Proof.
  unfold URLSearchParams.get, URLSearchParams.delete.
  induction ps as [|[n v] ps IH]; simpl; [reflexivity|].
  destruct (String.eqb n name) eqn:Hn; simpl; [exact IH|].
  rewrite Hn. exact IH.
Qed.

Lemma get_set_other (ps : URLSearchParams.t) (name value other : string) :
  other <> name ->
  URLSearchParams.get (URLSearchParams.set ps name value) other
    = URLSearchParams.get ps other.
Proof.
  intros Hne.
  induction ps as [|[n v] ps IH]; simpl.
  - unfold URLSearchParams.get. simpl.
    apply String.eqb_neq in Hne. rewrite String.eqb_sym, Hne. reflexivity.
  - destruct (String.eqb n name) eqn:Hn.
    + apply String.eqb_eq in Hn. subst n.
      pose proof (get_delete_other ps name other Hne) as Hdel.
      unfold URLSearchParams.get in *. simpl.
      apply String.eqb_neq in Hne. rewrite String.eqb_sym, Hne. exact Hdel.
    + unfold URLSearchParams.get in *. simpl.
      destruct (String.eqb n other); [reflexivity | exact IH].
Qed.

(** X15. Typing in the search field and reading the search text back give
    the text typed: a non-empty text is stored under ['search'], an empty
    one removes the parameter, and in both cases no other parameter
    changes. The clear button leaves an empty search text. *)
Theorem search_round_trip (value : string) (previousParams : URLSearchParams.t) :
  Bucket.search (Bucket.onSearchChange value previousParams) = value /\
  (URLSearchParams.get (Bucket.onSearchChange value previousParams) "search" = None
   <-> value = "") /\
  Bucket.search (Bucket.onSearchClear previousParams) = "" /\
  (forall other, other <> "search" ->
     URLSearchParams.get (Bucket.onSearchChange value previousParams) other
       = URLSearchParams.get previousParams other /\
     URLSearchParams.get (Bucket.onSearchClear previousParams) other
       = URLSearchParams.get previousParams other).
Proof.
  unfold Bucket.search, Bucket.onSearchChange, Bucket.onSearchClear,
    Bucket.nonEmpty.
  destruct (String.eqb value "") eqn:Hv; cbn [negb].
  - apply String.eqb_eq in Hv. subst value.
    rewrite get_delete_same. repeat split; auto;
      apply get_delete_other; assumption.
  - apply String.eqb_neq in Hv. rewrite get_set_same, get_delete_same.
    split; [reflexivity|]. split; [split; [discriminate | contradiction]|].
    split; [reflexivity|]. intros other Hother. split.
    + apply get_set_other; assumption.
    + apply get_delete_other; assumption.
Qed.

(** X16. Changing the row selection and reading it back from the search
    parameters: an empty selection removes ['selection'], any other is
    stored joined by commas, and no other parameter changes. Read back, the
    selection is the one written whenever no selected key contains a comma;
    in general only the comma-joined text is preserved. *)
Theorem selection_round_trip (newSelection : list string)
    (previousParams : URLSearchParams.t) :
  let params := Bucket.onRowSelectionModelChange newSelection previousParams in
  join "," (Bucket.selectedObjects params) = join "," newSelection /\
  (Forall (fun key => free "," key = true) newSelection ->
     Bucket.selectedObjects params = newSelection) /\
  (URLSearchParams.get params "selection" = None <-> newSelection = []) /\
  (forall other, other <> "selection" ->
     URLSearchParams.get params other = URLSearchParams.get previousParams other).
Proof.
  cbv zeta. unfold Bucket.onRowSelectionModelChange, Bucket.selectedObjects.
  destruct newSelection as [|x l].
  - cbn [List.length Nat.ltb Nat.leb]. rewrite get_delete_same.
    repeat split; auto. intros other Hother.
    apply get_delete_other. exact Hother.
  - cbn [List.length Nat.ltb Nat.leb]. rewrite get_set_same.
    cbn [option_map S3.orElse].
    split; [apply join_split|].
    split; [intros Hfree; apply split_join; [discriminate | exact Hfree]|].
    split; [split; discriminate|].
    intros other Hother. apply get_set_other. exact Hother.
Qed.

Example selection_with_comma :
  Bucket.selectedObjects (Bucket.onRowSelectionModelChange ["a,b.txt"] [])
    = ["a"; "b.txt"].
Proof. reflexivity. Qed.

Lemma split_single (c : ascii) (s : string) :
  List.length (split c s) = 1 <-> free c s = true.
Proof.
  split.
  - intros Hlen. pose proof (join_split c s) as Hjoin.
    pose proof (split_free c s) as Hfree.
    destruct (split c s) as [|x [|y l]]; try discriminate.
    simpl in Hjoin. subst s.
    inversion Hfree as [|? ? Hx _]. exact Hx.
  - intros Hfree. rewrite split_of_free by exact Hfree. reflexivity.
Qed.

Lemma has_get (ps : URLSearchParams.t) (name : string) :
  URLSearchParams.has ps name = false <-> URLSearchParams.get ps name = None.
Proof.
  unfold URLSearchParams.has, URLSearchParams.get.
  induction ps as [|[n v] ps IH]; simpl; [tauto|].
  destruct (String.eqb n name); simpl; [split; discriminate | exact IH].
Qed.

(** X17. The delete button is enabled exactly when the URL has a
    ['selection'] parameter, even an empty one; the rename button exactly
    when that parameter has no comma. When the rename dialog is open, the
    object it is given is the value of the parameter and the only selected
    one; when the delete dialog is open, the delete button is enabled. *)
Theorem selection_buttons (searchParams : URLSearchParams.t) :
  Bucket.deleteDisabled searchParams
    = negb (URLSearchParams.has searchParams "selection") /\
  (Bucket.renameDisabled searchParams = false <->
   exists value, URLSearchParams.get searchParams "selection" = Some value /\
                 free "," value = true) /\
  (Bucket.renameDialogOpen searchParams = true ->
     Bucket.selectedObjects searchParams = [Bucket.renameDialogObject searchParams] /\
     URLSearchParams.get searchParams "selection"
       = Some (Bucket.renameDialogObject searchParams)) /\
  (Bucket.deleteDialogOpen searchParams = true ->
     Bucket.deleteDisabled searchParams = false).
Proof.
  unfold Bucket.deleteDisabled, Bucket.renameDisabled, Bucket.renameDialogOpen,
    Bucket.deleteDialogOpen, Bucket.renameDialogObject, Bucket.selectedObjects.
  pose proof (has_get searchParams "selection") as Hhas.
  destruct (URLSearchParams.get searchParams "selection") as [value|] eqn:Hget;
    cbn [option_map S3.orElse].
  - destruct (URLSearchParams.has searchParams "selection") eqn:Hh;
      [|destruct Hhas as [Hhas _]; discriminate (Hhas eq_refl)].
    pose proof (split_not_nil "," value) as Hne.
    pose proof (split_single "," value) as Hsingle.
    split; [destruct (split "," value); [contradiction | reflexivity]|].
    split; [|split].
    + rewrite negb_false_iff, Nat.eqb_eq, Hsingle. split.
      * intros Hfree. exists value. auto.
      * intros (v & [= <-] & Hfree). exact Hfree.
    + intros Hopen. apply andb_true_iff in Hopen. destruct Hopen as [_ Hone].
      apply Nat.eqb_eq in Hone. apply Hsingle in Hone.
      rewrite split_of_free by exact Hone. split; reflexivity.
    + intros _. destruct (split "," value); [contradiction | reflexivity].
  - destruct Hhas as [_ Hhas]. rewrite (Hhas eq_refl). cbn.
    split; [reflexivity|]. split; [|split].
    + split; [discriminate | intros (v & Habs & _); discriminate].
    + rewrite andb_false_r. discriminate.
    + rewrite andb_false_r. discriminate.
Qed.

(** ** Dropped files *)

Lemma onDrop_appends (formData : Sqs.FormData) (files : list Bucket.DroppedFile) :
  Bucket.onDrop (Some formData) files =
    Some (Bucket.formDelete formData "files"
          ++ flat_map
               (fun file =>
                  [("paths", Sqs.FString (S3.orElse (Bucket.file_path file)
                                                    (Bucket.file_name file)));
                   ("files", Sqs.FFile (Bucket.file_name file))])
               files)%list.
Proof.
  unfold Bucket.onDrop. f_equal.
  generalize (Bucket.formDelete formData "files") as acc.
  induction files as [|f files IH]; intros acc; simpl.
  - rewrite app_nil_r. reflexivity.
  - rewrite IH. unfold Bucket.formAppend. rewrite <- !app_assoc. reflexivity.
Qed.

Lemma formGetAll_app (a b : Sqs.FormData) (name : string) :
  Bucket.formGetAll (a ++ b)%list name
    = (Bucket.formGetAll a name ++ Bucket.formGetAll b name)%list.
Proof. unfold Bucket.formGetAll. rewrite filter_app, map_app. reflexivity. Qed.

Lemma formGetAll_formDelete (formData : Sqs.FormData) (deleted name : string) :
  Bucket.formGetAll (Bucket.formDelete formData deleted) name
    = if String.eqb name deleted then [] else Bucket.formGetAll formData name.
Proof.
  unfold Bucket.formGetAll, Bucket.formDelete.
  induction formData as [|[n v] formData IH]; simpl.
  - destruct (String.eqb name deleted); reflexivity.
  - destruct (String.eqb n deleted) eqn:Hd; simpl.
    + apply String.eqb_eq in Hd. subst n. rewrite IH.
      rewrite (String.eqb_sym deleted name).
      destruct (String.eqb name deleted); reflexivity.
    + destruct (String.eqb n name) eqn:Hn; simpl.
      * apply String.eqb_eq in Hn. subst n. rewrite IH, Hd. reflexivity.
      * exact IH.
Qed.

(** X18. Dropping files on the bucket page submits nothing when the form
    is not mounted. Otherwise the form data submitted has, under ['files'],
    the accepted files and nothing else, in order; under ['paths'], the
    paths the form already had followed by one path per accepted file, in
    the same order (the file's [path], or its name when it has none); and
    every other field as the form had it. *)
Theorem onDrop_form_data (formData : Sqs.FormData)
    (acceptedFiles : list Bucket.DroppedFile) :
  Bucket.onDrop None acceptedFiles = None /\
  exists submitted,
    Bucket.onDrop (Some formData) acceptedFiles = Some submitted /\
    Bucket.formGetAll submitted "files"
      = map (fun file => Sqs.FFile (Bucket.file_name file)) acceptedFiles /\
    Bucket.formGetAll submitted "paths"
      = (Bucket.formGetAll formData "paths"
         ++ map (fun file =>
                   Sqs.FString (S3.orElse (Bucket.file_path file)
                                          (Bucket.file_name file)))
                acceptedFiles)%list /\
    (forall name, name <> "files" -> name <> "paths" ->
       Bucket.formGetAll submitted name = Bucket.formGetAll formData name).
Proof.
  split; [reflexivity|]. rewrite onDrop_appends. eexists. split; [reflexivity|].
  set (added := flat_map _ acceptedFiles).
  assert (Hadded : forall name,
            Bucket.formGetAll added name =
              if String.eqb name "files"
              then map (fun file => Sqs.FFile (Bucket.file_name file)) acceptedFiles
              else if String.eqb name "paths"
              then map (fun file =>
                          Sqs.FString (S3.orElse (Bucket.file_path file)
                                                 (Bucket.file_name file)))
                       acceptedFiles
              else []).
  { intros name. subst added. unfold Bucket.formGetAll.
    induction acceptedFiles as [|f files IH].
    - cbn. destruct (String.eqb name "files"), (String.eqb name "paths");
        reflexivity.
    - cbn [flat_map]. rewrite filter_app, map_app, IH. cbn [filter fst].
      rewrite (String.eqb_sym "paths" name), (String.eqb_sym "files" name).
      destruct (String.eqb name "files") eqn:Hf.
      + apply String.eqb_eq in Hf. subst name.
        change (String.eqb "files" "paths") with false. reflexivity.
      + destruct (String.eqb name "paths"); reflexivity. }
  rewrite !formGetAll_app, !formGetAll_formDelete, !Hadded.
  split; [reflexivity|]. split; [reflexivity|].
  intros name Hfiles Hpaths. rewrite formGetAll_app, formGetAll_formDelete, Hadded.
  apply String.eqb_neq in Hfiles, Hpaths. rewrite Hfiles, Hpaths.
  apply app_nil_r.
Qed.

(** X19. [action] hands the request to a handler exactly for the methods
    ['DELETE'] and ['PATCH'], compared as they are written; for any other
    method no handler runs and the redirect thrown points below
    ['/s3/buckets/'], to the bucket alone when the key parameter is absent
    or empty and to the bucket and key otherwise. *)
Theorem action_dispatch (A : Type)
    (deleteObjectsAction renameObjectAction : Bucket.ActionArgs -> A)
    (args : Bucket.ActionArgs) :
  let result := Bucket.action deleteObjectsAction renameObjectAction args in
  ((exists value, result = Bucket.Returns value) <->
   Bucket.method args = "DELETE" \/ Bucket.method args = "PATCH") /\
  (Bucket.method args = "DELETE" ->
     result = Bucket.Returns (deleteObjectsAction args)) /\
  (Bucket.method args = "PATCH" ->
     result = Bucket.Returns (renameObjectAction args)) /\
  (forall response, result = Bucket.ThrowsRedirect response ->
     startsWith (Location response) "/s3/buckets/" = true /\
     (S3.key (Bucket.params args) = None \/
      S3.key (Bucket.params args) = Some "" ->
        Location response
          = "/s3/buckets/" ++ interpolate (S3.id (Bucket.params args))) /\
     (forall raw, S3.key (Bucket.params args) = Some raw -> raw <> "" ->
        Location response
          = "/s3/buckets/" ++ interpolate (S3.id (Bucket.params args))
            ++ "/" ++ raw)).
Proof.
  cbv zeta. unfold Bucket.action.
  destruct (String.eqb (Bucket.method args) "DELETE") eqn:Hd.
  - apply String.eqb_eq in Hd. rewrite Hd.
    split; [split; [auto | eexists; reflexivity]|].
    split; [reflexivity|]. split; [discriminate|]. discriminate.
  - destruct (String.eqb (Bucket.method args) "PATCH") eqn:Hp.
    + apply String.eqb_eq in Hp. rewrite Hp.
      split; [split; [auto | eexists; reflexivity]|].
      split; [discriminate|]. split; [reflexivity|]. discriminate.
    + apply String.eqb_neq in Hd, Hp.
      split; [split; [intros [v Habs]; discriminate | tauto]|].
      split; [contradiction|]. split; [contradiction|].
      intros response [= <-]. cbn [Location redirect].
      split; [apply (startsWith_append "/s3/buckets/")|].
      split.
      * intros [-> | ->]; cbn; rewrite append_empty_r; reflexivity.
      * intros raw -> Hraw. apply String.eqb_neq in Hraw. rewrite Hraw.
        reflexivity.
Qed.

(** ** The viewers *)

Lemma pop_cons (x : string) (l : list string) :
  l <> [] -> pop (x :: l) = pop l.
Proof.
  intros Hne. unfold pop. simpl.
  assert (Hrev : List.rev l <> []).
  { intros H. apply Hne. apply (f_equal (@List.rev string)) in H.
    rewrite rev_involutive in H. exact H. }
  destruct (List.rev l); [contradiction | reflexivity].
Qed.

(** The last piece of a split string: what follows the last separator. *)
Lemma pop_split (c : ascii) (s : string) :
  exists front last,
    pop (split c s) = Some last /\
    s = front ++ last /\
    free c last = true /\
    (front = "" \/ endsWith front (String c "") = true).
Proof.
  induction s as [|a s IH].
  - exists "", "". repeat split; auto.
  - destruct IH as (front & last & Hpop & Hs & Hfree & Hfront).
    cbn [split]. destruct (Ascii.eqb a c) eqn:Hac.
    + apply Ascii.eqb_eq in Hac. subst a.
      rewrite pop_cons by apply split_not_nil.
      exists (String c front), last. repeat split; auto.
      * cbn [append]. congruence.
      * right. destruct Hfront as [-> | Hends]; [apply endsWith_refl|].
        apply endsWith_cons. exact Hends.
    + pose proof (split_not_nil c s) as Hne.
      pose proof (join_split c s) as Hjoin.
      pose proof (split_free c s) as Hall.
      destruct (split c s) as [|h t] eqn:Hsplit; [contradiction|].
      destruct t as [|h' t].
      * simpl in Hjoin. subst h. exists "", (String a s).
        inversion Hall as [|? ? Hh _]. cbn [free]. rewrite Hac, Hh.
        repeat split; auto.
      * rewrite pop_cons by discriminate.
        rewrite pop_cons in Hpop by discriminate.
        exists (String a front), last. repeat split; auto.
        -- cbn [append]. congruence.
        -- right. destruct Hfront as [-> | Hends]; [|apply endsWith_cons; exact Hends].
           exfalso. cbn [append] in Hs. subst s.
           rewrite split_of_free in Hsplit by exact Hfree. discriminate.
Qed.

Section ViewerEdges.

Variable Number_toString : float -> string.
Variable JSON_stringify : JSON -> string.
Variable parseCsv : string -> option (list CsvRecord).
Variable JSON_parse : string -> option JSON.

(** X20. The CSV viewer shows a grid exactly when the fetch has delivered a
    body from which the parser produced at least one record; in every other
    case (failed fetch, parser without output, no record) it renders
    nothing. The grid has one column per field of the first record, named
    after the field, and the parsed records as rows. *)
Theorem CsvViewer_shows_grid (name src : string)
    (network : string -> option string) :
  let shown :=
    displayAfterMount Number_toString JSON_stringify parseCsv JSON_parse
      (CsvViewerEl src name) network in
  ((exists grid, shown = ShowDataGrid (Some grid))
   <-> exists body first rest,
         network src = Some body /\ parseCsv body = Some (first :: rest)) /\
  ((forall grid, shown <> ShowDataGrid (Some grid))
   -> shown = ShowDataGrid None) /\
  (forall grid, shown = ShowDataGrid (Some grid) ->
     exists body first rest,
       network src = Some body /\ parseCsv body = Some (first :: rest) /\
       rows (dg_props grid) = first :: rest /\
       map field (columns (dg_props grid)) = map fst first /\
       List.length (columns (dg_props grid)) = List.length first).
Proof.
  cbv zeta. cbn [displayAfterMount]. unfold stateAfterMount.
  cbn [CsvViewer mountEffects initialState render fold_left runEffect].
  destruct (network src) as [body|] eqn:Hnet; cbn [option_map].
  - destruct (parseCsv body) as [[|first rest]|] eqn:Hparse; cbn [option_map].
    + split; [split; [intros [g Habs]; discriminate
                     | intros (b & f & r & Hb & Habs); congruence]|].
      split; [reflexivity | intros g Habs; discriminate].
    + split; [split; [intros _; exists body, first, rest; auto
                     | intros _; eexists; reflexivity]|].
      split; [intros Hno; exfalso; eapply Hno; reflexivity|].
      intros grid [= <-]. exists body, first, rest.
      cbn [dg_props rows columns]. repeat split; auto.
      * rewrite map_map. cbn [field]. apply map_id.
      * rewrite !length_map. reflexivity.
    + split; [split; [intros [g Habs]; discriminate
                     | intros (b & f & r & Hb & Habs); congruence]|].
      split; [reflexivity | intros g Habs; discriminate].
  - split; [split; [intros [g Habs]; discriminate
                   | intros (b & f & r & Habs & _); discriminate]|].
    split; [reflexivity | intros g Habs; discriminate].
Qed.

(** X21. The JSON viewer shows a tree exactly when the fetch has delivered
    a body that parses to a value other than [null]; a [null] document, a
    body that does not parse or a failed fetch leave it rendering nothing.
    The tree shown is the conversion of the value under the empty prefix,
    with the value's own keys as default expansion. *)
Theorem JsonViewer_shows_tree (name src : string)
    (network : string -> option string) :
  let shown :=
    displayAfterMount Number_toString JSON_stringify parseCsv JSON_parse
      (JsonViewerEl src name) network in
  ((exists tree, shown = ShowTree (Some tree))
   <-> exists body data,
         network src = Some body /\ JSON_parse body = Some data /\
         data <> JNull) /\
  ((forall tree, shown <> ShowTree (Some tree))
   -> shown = ShowTree None) /\
  (forall tree, shown = ShowTree (Some tree) ->
     exists body data,
       network src = Some body /\ JSON_parse body = Some data /\
       children (tv_props tree)
         = convertToTree Number_toString JSON_stringify data "" /\
       defaultExpanded (tv_props tree) = map fst (Object_entries data)).
Proof.
  cbv zeta. cbn [displayAfterMount]. unfold stateAfterMount.
  cbn [JsonViewer mountEffects initialState render fold_left runEffect].
  destruct (network src) as [body|] eqn:Hnet; cbn [option_map].
  - destruct (JSON_parse body) as [data|] eqn:Hparse; cbn [option_map].
    + destruct (Object_keys data) as [keys|] eqn:Hkeys; cbn [option_map].
      * assert (Hdata : data <> JNull) by (intros ->; discriminate).
        assert (Hk : keys = map fst (Object_entries data)).
        { destruct data; try (injection Hkeys as <-; reflexivity).
          discriminate. }
        split; [split; [intros _; exists body, data; auto
                       | intros _; eexists; reflexivity]|].
        split; [intros Hno; exfalso; eapply Hno; reflexivity|].
        intros tree [= <-]. exists body, data. cbn. auto.
      * assert (Hdata : data = JNull) by (destruct data; try discriminate; reflexivity).
        split; [split; [intros [t Habs]; discriminate
                       | intros (b & d & Hb & Hd & Hne); congruence]|].
        split; [reflexivity | intros t Habs; discriminate].
    + split; [split; [intros [t Habs]; discriminate
                     | intros (b & d & Hb & Hd & _); congruence]|].
      split; [reflexivity | intros t Habs; discriminate].
  - split; [split; [intros [t Habs]; discriminate
                   | intros (b & d & Habs & _); discriminate]|].
    split; [reflexivity | intros t Habs; discriminate].
Qed.

(** X23. The text viewer always shows a highlighter: empty until the fetch
    delivers, and empty for good when it fails; then with the body as it
    is. Its language is always defined: it is what follows the last dot of
    the name, so it contains no dot, and it is the whole name when the name
    has no dot. *)
Theorem TextViewer_highlighter (name src : string)
    (network : string -> option string) :
  exists el language front,
    displayAfterMount Number_toString JSON_stringify parseCsv JSON_parse
      (TextViewerEl src name) network = ShowHighlighter el /\
    sh_content el = S3.orElse (network src) "" /\
    sh_language el = Some language /\
    name = front ++ language /\
    free "." language = true /\
    (front = "" \/ endsWith front "." = true) /\
    (free "." name = true -> language = name).
Proof.
  destruct (pop_split "." name) as (front & last & Hpop & Hname & Hfree & Hfront).
  eexists. exists last, front.
  cbn [displayAfterMount]. unfold stateAfterMount.
  cbn [TextViewer mountEffects initialState render fold_left runEffect].
  split; [reflexivity|]. cbn [sh_content sh_language].
  split; [destruct (network src); reflexivity|].
  split; [exact Hpop|]. split; [exact Hname|]. split; [exact Hfree|].
  split; [exact Hfront|].
  intros Hnodot. rewrite split_of_free in Hpop by exact Hnodot.
  injection Hpop as <-. reflexivity.
Qed.

End ViewerEdges.

(** ** More on the JSON tree *)

Lemma size_atom (v : JSON) : isObjectLike v = false -> size v = 1.
Proof. destruct v; try discriminate; reflexivity. Qed.

Lemma size_indexed (items : list JSON) (i : nat) :
  fold_right (fun e n => size (snd e) + n) 0 (indexed i items)
    = fold_right (fun x n => size x + n) 0 items.
Proof.
  revert i; induction items as [|x items IH]; intros i; simpl; [reflexivity|].
  now rewrite IH.
Qed.

Lemma size_entries (obj : JSON) :
  isObjectLike obj = true ->
  size obj = S (fold_right (fun e n => size (snd e) + n) 0 (Object_entries obj)).
Proof.
  destruct obj; try discriminate; intros _; simpl; [|reflexivity].
  now rewrite size_indexed.
Qed.

Section TreeShape.

Variable Number_toString : float -> string.
Variable JSON_stringify : JSON -> string.

Local Abbreviation tree := (convertToTree Number_toString JSON_stringify).

(** X24. The tree has one [TreeItem] for every value nested in the
    document, at any depth: together with the document itself they are as
    many as the values of the document. *)
Theorem convertToTree_item_count (obj : JSON) (keyPrefix : string) :
  S (countItems (tree obj keyPrefix)) = size obj.
Proof.
  revert keyPrefix.
  induction obj as [obj Hatom | obj Hobj IH] using JSON_entries_ind;
    intros keyPrefix.
  - rewrite convertToTree_atom by assumption.
    rewrite size_atom by assumption. reflexivity.
  - rewrite convertToTree_entries, size_entries by assumption.
    cbn [countItems]. f_equal.
    revert IH. generalize (Object_entries obj) as entries.
    induction entries as [|[k v] entries IHe]; intros IH; [reflexivity|].
    cbn [map fold_right snd]. rewrite IHe.
    + f_equal. rewrite treeEntry_item. cbn [countItems].
      destruct (isObjectLike v) eqn:Hv.
      * apply (IH k v). left. reflexivity.
      * rewrite size_atom by assumption. reflexivity.
    + intros k' v' Hin. apply (IH k' v'). right. exact Hin.
Qed.

Lemma nodeIdOf_append (p q key : string) :
  nodeIdOf (p ++ q) key = p ++ nodeIdOf q key.
Proof. unfold nodeIdOf. apply append_assoc. Qed.

(** X25. Converting a value under a longer prefix gives the tree converted
    under the rest of the prefix with the front put before every key and
    node id. In particular the children of the item of an entry are the
    conversion of the entry's value on its own, moved under the item's
    node id. *)
Theorem convertToTree_prefix (obj : JSON) (front keyPrefix : string) :
  tree obj (front ++ keyPrefix) = prefixIds front (tree obj keyPrefix).
Proof.
  revert keyPrefix.
  induction obj as [obj Hatom | obj Hobj IH] using JSON_entries_ind;
    intros keyPrefix.
  - rewrite !convertToTree_atom by assumption. cbn [prefixIds].
    rewrite nodeIdOf_append. reflexivity.
  - rewrite !convertToTree_entries by assumption. cbn [prefixIds].
    f_equal. rewrite map_map. apply map_ext_in. intros [k v] Hin.
    rewrite !treeEntry_item. cbn [prefixIds]. rewrite !nodeIdOf_append.
    f_equal. destruct (isObjectLike v); [|reflexivity].
    cbn [option_map]. f_equal. apply (IH k v Hin).
Qed.

End TreeShape.

(** *** Node ids as access paths *)

Lemma free_app_char (c : ascii) (x y : string) :
  free c (x ++ String c y) = false.
Proof.
  induction x as [|a x IH]; simpl.
  - rewrite Ascii.eqb_refl. reflexivity.
  - rewrite IH. apply andb_false_r.
Qed.

(** A string is cut in one way only at its last occurrence of [q]. *)
Lemma last_char_split (q : ascii) (a a' k k' : string) :
  free q k = true -> free q k' = true ->
  a ++ String q k = a' ++ String q k' -> a = a' /\ k = k'.
Proof.
  revert a'; induction a as [|c a IH]; intros a' Hk Hk' Heq.
  - destruct a' as [|c' a']; simpl in Heq.
    + injection Heq as ->. auto.
    + injection Heq as _ ->. rewrite free_app_char in Hk. discriminate.
  - destruct a' as [|c' a']; simpl in Heq.
    + injection Heq as _ <-. rewrite free_app_char in Hk'. discriminate.
    + injection Heq as -> Heq. destruct (IH a' Hk Hk' Heq) as [-> ->]. auto.
Qed.

Lemma append_inj_r (u u' s : string) : u ++ s = u' ++ s -> u = u'.
Proof.
  revert u'; induction u as [|c u IH]; intros u' Heq.
  - destruct u' as [|c' u']; [reflexivity|].
    apply (f_equal String.length) in Heq. simpl in Heq.
    rewrite length_append in Heq. lia.
  - destruct u' as [|c' u'].
    + apply (f_equal String.length) in Heq. simpl in Heq.
      rewrite length_append in Heq. lia.
    + simpl in Heq. injection Heq as -> Heq. f_equal. apply IH. exact Heq.
Qed.

Lemma nodeIdOf_inj (p p' key key' : string) :
  free "'" key = true -> free "'" key' = true ->
  nodeIdOf p key = nodeIdOf p' key' -> p = p' /\ key = key'.
Proof.
  unfold nodeIdOf. intros Hk Hk' Heq.
  rewrite <- !append_assoc in Heq. apply append_inj_r in Heq.
  change (p ++ "['") with (p ++ ("[" ++ "'")) in Heq.
  change (p' ++ "['") with (p' ++ ("[" ++ "'")) in Heq.
  rewrite <- !append_assoc in Heq. rewrite !append_assoc in Heq.
  rewrite <- (append_assoc p "[" ), <- (append_assoc p' "[") in Heq.
  change ("'" ++ key) with (String "'" key) in Heq.
  change ("'" ++ key') with (String "'" key') in Heq.
  destruct (last_char_split "'" _ _ _ _ Hk Hk' Heq) as [Hp ->].
  apply append_inj_r in Hp. auto.
Qed.

Lemma renderPath_length (p : string) (keys : list string) :
  String.length p <= String.length (renderPath p keys) /\
  (keys <> [] -> String.length p < String.length (renderPath p keys)).
Proof.
  unfold renderPath. revert p; induction keys as [|k keys IH]; intros p; simpl.
  - split; [lia | intros H; now elim H].
  - destruct (IH (nodeIdOf p k)) as [Hle _].
    unfold nodeIdOf in Hle at 1. rewrite !length_append in Hle.
    simpl in Hle. split; [lia | intros _; lia].
Qed.

Lemma renderPath_inj (p : string) (keys1 : list string) :
  forall keys2,
    Forall (fun key => free "'" key = true) keys1 ->
    Forall (fun key => free "'" key = true) keys2 ->
    renderPath p keys1 = renderPath p keys2 -> keys1 = keys2.
Proof.
  induction keys1 as [|k1 l1 IH] using rev_ind; intros keys2 H1 H2 Heq.
  - destruct keys2 as [|k2 l2]; [reflexivity|].
    destruct (renderPath_length p (k2 :: l2)) as [_ Hlt].
    specialize (Hlt ltac:(discriminate)). rewrite <- Heq in Hlt.
    simpl in Hlt. lia.
  - destruct keys2 as [|k2 l2 _] using rev_ind.
    + destruct (renderPath_length p (l1 ++ [k1])) as [_ Hlt].
      specialize (Hlt ltac:(destruct l1; discriminate)). rewrite Heq in Hlt.
      simpl in Hlt. lia.
    + rewrite !renderPath_snoc in Heq.
      apply Forall_app in H1, H2. destruct H1 as [H1 Hk1], H2 as [H2 Hk2].
      inversion Hk1 as [|? ? Hf1 _]; inversion Hk2 as [|? ? Hf2 _]; subst.
      destruct (nodeIdOf_inj _ _ _ _ Hf1 Hf2 Heq) as [Hp ->].
      f_equal. apply IH; assumption.
Qed.

Lemma startsWith_app_l (p x q : string) :
  startsWith p q = true -> startsWith (p ++ x) q = true.
Proof.
  unfold startsWith. revert p; induction q as [|c q IH]; intros p H.
  - apply prefix_empty.
  - destruct p as [|a p]; [discriminate|]. simpl in *.
    destruct (ascii_dec c a); [auto | discriminate].
Qed.

Lemma renderPath_bracket (keys : list string) :
  keys <> [] -> startsWith (renderPath "" keys) "['" = true.
Proof.
  destruct keys as [|k keys]; [intros H; now elim H|]. intros _.
  unfold renderPath. cbn [fold_left].
  assert (H : startsWith (nodeIdOf "" k) "['" = true)
    by (unfold nodeIdOf; apply (startsWith_append "['")).
  revert H. generalize (nodeIdOf "" k) as p.
  induction keys as [|k' keys IH]; intros p Hp; [exact Hp|].
  cbn [fold_left]. apply IH. unfold nodeIdOf. apply startsWith_app_l. exact Hp.
Qed.

Section TreeIds.

Variable Number_toString : float -> string.
Variable JSON_stringify : JSON -> string.
Variable parseCsv : string -> option (list CsvRecord).
Variable JSON_parse : string -> option JSON.

Local Abbreviation tree := (convertToTree Number_toString JSON_stringify).

(** X26. In the tree of a document whose keys contain no single quote, a
    node id names one place: two items with the same node id hang under the
    same parent and show the same key. *)
Theorem convertToTree_ids_name_one_place (obj : JSON) (keyPrefix : string)
    (parent1 parent2 nodeId : string) (label1 label2 : Label) :
  quoteFreeKeys obj ->
  Item keyPrefix (tree obj keyPrefix) parent1 nodeId label1 ->
  Item keyPrefix (tree obj keyPrefix) parent2 nodeId label2 ->
  parent1 = parent2 /\ labelKey label1 = labelKey label2.
Proof.
  intros Hfree H1 H2.
  apply Item_path in H1, H2.
  destruct H1 as (keys1 & key1 & v1 & Hr1 & Hp1 & Hn1 & Hl1).
  destruct H2 as (keys2 & key2 & v2 & Hr2 & Hp2 & Hn2 & Hl2).
  assert (Heq : renderPath keyPrefix (keys1 ++ [key1])
                = renderPath keyPrefix (keys2 ++ [key2])).
  { rewrite !renderPath_snoc. congruence. }
  apply renderPath_inj in Heq; [|exact (Hfree _ _ Hr1) | exact (Hfree _ _ Hr2)].
  apply app_inj_tail in Heq. destruct Heq as [-> ->].
  split; [congruence|]. subst label1 label2.
  unfold labelOf. destruct (isObjectLike v1), (isObjectLike v2); reflexivity.
Qed.

(** X22. In the tree the JSON viewer shows, every node id starts with
    [['], the outermost ones being [['key']] for each key of the document,
    while the default expansion lists the keys as they are. So a key that
    does not itself start with [['] names no node: nothing is expanded by
    default for such a document. *)
Theorem JsonViewer_default_expansion (name src : string)
    (network : string -> option string) (shown : JsonTreeViewEl) :
  displayAfterMount Number_toString JSON_stringify parseCsv JSON_parse
    (JsonViewerEl src name) network = ShowTree (Some shown) ->
  (forall parent nodeId label,
     Item "" (children (tv_props shown)) parent nodeId label ->
     startsWith nodeId "['" = true) /\
  (topIds (children (tv_props shown))
     = map (fun key => "['" ++ key ++ "']") (defaultExpanded (tv_props shown)) \/
   topIds (children (tv_props shown)) = []) /\
  (forall key, In key (defaultExpanded (tv_props shown)) ->
     startsWith key "['" = false ->
     forall parent label,
       ~ Item "" (children (tv_props shown)) parent key label).
Proof.
  intros Hshown.
  assert (Hdata : exists data,
            children (tv_props shown) = tree data "" /\
            defaultExpanded (tv_props shown) = map fst (Object_entries data)).
  { cbn [displayAfterMount] in Hshown. unfold stateAfterMount in Hshown.
    cbn [JsonViewer mountEffects initialState render fold_left runEffect]
      in Hshown.
    destruct (network src) as [body|]; [|discriminate].
    destruct (JSON_parse body) as [data|]; [|discriminate].
    exists data.
    destruct data; cbn in Hshown; try discriminate;
      injection Hshown as <-; split; reflexivity. }
  destruct Hdata as (data & Hchildren & Hexpanded).
  rewrite Hchildren, Hexpanded.
  assert (Hids : forall parent nodeId label,
            Item "" (tree data "") parent nodeId label ->
            startsWith nodeId "['" = true).
  { intros parent nodeId label Hitem. apply Item_path in Hitem.
    destruct Hitem as (keys & key & v & _ & Hp & Hn & _).
    subst parent nodeId. rewrite <- renderPath_snoc.
    apply renderPath_bracket. destruct keys; discriminate. }
  split; [exact Hids|]. split.
  - destruct (isObjectLike data) eqn:Hobj.
    + left. rewrite convertToTree_entries by assumption. cbn [topIds].
      generalize (Object_entries data) as entries.
      induction entries as [|[k v] entries IH]; [reflexivity|].
      cbn [map flat_map fst]. rewrite treeEntry_item, IH. reflexivity.
    + right. rewrite convertToTree_atom by assumption. reflexivity.
  - intros key _ Hkey parent label Hitem.
    rewrite (Hids _ _ _ Hitem) in Hkey. discriminate.
Qed.

End TreeIds.

Lemma quoteFreeKeys_sample : quoteFreeKeys (JObject [("a", JNull)]).
Proof.
  intros keys v Hreach.
  inversion Hreach as [|obj key value rest v' _ Hin Hrest]; subst;
    [constructor|].
  destruct Hin as [[= <- <-] | []].
  inversion Hrest as [|? ? ? ? ? Habs]; subst; [|discriminate].
  constructor; [reflexivity | constructor].
Defined.

Lemma convertToTree_ids_name_one_place_witness :
  quoteFreeKeys (JObject [("a", JNull)]) /\
  Item "" (convertToTree (fun _ => "") (fun _ => "null") (JObject [("a", JNull)]) "")
       "" "['a']"
       (KeyValueLabel "a" {| cv_value := JNull; cv_text := "null" |}) /\
  ("" = "" /\ "a" = "a").
Proof.
  assert (Hitem :
    Item "" (convertToTree (fun _ => "") (fun _ => "null") (JObject [("a", JNull)]) "")
         "" "['a']"
         (KeyValueLabel "a" {| cv_value := JNull; cv_text := "null" |})).
  { eapply Item_top. left. reflexivity. }
  split; [exact quoteFreeKeys_sample|]. split; [exact Hitem|].
  exact (convertToTree_ids_name_one_place (fun _ => "") (fun _ => "null")
           (JObject [("a", JNull)]) "" "" "" "['a']" _ _
           quoteFreeKeys_sample Hitem Hitem).
Defined.

(** With a quote in a key two places can share a node id. *)
Example convertToTree_shared_id :
  let doc := JObject [("a", JObject [("b", JNull)]); ("a']['b", JNull)] in
  let t := convertToTree (fun _ => "") (fun _ => "null") doc "" in
  Item "" t "['a']" "['a']['b']"
       (KeyValueLabel "b" {| cv_value := JNull; cv_text := "null" |}) /\
  Item "" t "" "['a']['b']"
       (KeyValueLabel "a']['b" {| cv_value := JNull; cv_text := "null" |}).
Proof.
  cbv zeta. split.
  - eapply Item_below; [left; reflexivity|].
    eapply Item_top. left. reflexivity.
  - eapply Item_top. right. left. reflexivity.
Qed.

Lemma JsonViewer_default_expansion_witness :
  displayAfterMount (fun _ => "") (fun _ => "null") (fun _ => None)
    (fun _ => Some (JObject [("a", JNull)]))
    (JsonViewerEl "/bucket/a.json" "a.json") (fun _ => Some "{}")
  = ShowTree (Some {| tv_label := "a.json";
                      tv_props :=
                        {| defaultExpanded := ["a"];
                           children :=
                             convertToTree (fun _ => "") (fun _ => "null")
                               (JObject [("a", JNull)]) "" |} |}) /\
  forall parent label,
    ~ Item "" (convertToTree (fun _ => "") (fun _ => "null")
                 (JObject [("a", JNull)]) "") parent "a" label.
Proof.
  split; [reflexivity|].
  exact (proj2 (proj2
    (JsonViewer_default_expansion (fun _ => "") (fun _ => "null") (fun _ => None)
       (fun _ => Some (JObject [("a", JNull)]))
       "a.json" "/bucket/a.json" (fun _ => Some "{}") _ eq_refl))
    "a" (or_introl eq_refl) eq_refl).
Defined.

(** ** The JSON tree: items, node ids and access paths *)

Lemma indexed_combine {A : Type} (l : list A) (i : nat) :
  indexed i l
    = combine (map (fun n => NilZero.string_of_uint (Nat.to_uint n))
                   (seq i (List.length l)))
              l.
Proof.
  revert i; induction l as [|x l IH]; intros i; [reflexivity|].
  cbn [indexed List.length seq map combine]. rewrite IH. reflexivity.
Qed.

Lemma renderPath_accessPath (keyPrefix : string) (keys : list string) :
  renderPath keyPrefix keys = keyPrefix ++ accessPath keys.
Proof.
  unfold renderPath, accessPath.
  revert keyPrefix; induction keys as [|k keys IH]; intros keyPrefix.
  - cbn. symmetry. apply append_empty_r.
  - cbn [fold_left map glue fold_right]. rewrite IH.
    unfold nodeIdOf. fold (glue (map (fun key => "['" ++ key ++ "']") keys)).
    rewrite !append_assoc. reflexivity.
Qed.

Section TreeSpec.

Variable Number_toString : float -> string.
Variable JSON_stringify : JSON -> string.

Local Abbreviation tree := (convertToTree Number_toString JSON_stringify).

(** C4. The entries of an array are its elements under their indices in
    decimal, those of an object its properties. [convertToTree] on an
    object or an array yields one [TreeItem] per entry, in the order of the
    entries: its node id is the prefix followed by [['key']]; an entry that
    holds an object or an array is labelled with its key and has the
    conversion of its value, under that node id, as children; an entry that
    holds an atomic value is a leaf labelled with the key and the
    [JSON.stringify] of the value. An atomic value on its own becomes the
    [JsonValue] showing its [JSON.stringify]. Throughout the tree the node
    id of an item is the node id of its parent followed by [['key']], and
    the items are exactly the access paths of the value: the item for
    [obj[k1]...[kn][key]] has the id [prefix['k1']...['kn']['key']] and
    hangs under [prefix['k1']...['kn']]. When no key contains a single
    quote, the path can be read back from the id. *)
Theorem convertToTree_spec (obj : JSON) (keyPrefix : string) :
  (isObjectLike obj = true <->
   (exists items, obj = JArray items) \/ (exists props, obj = JObject props)) /\
  (forall items,
     Object_entries (JArray items)
       = combine (map (fun n => NilZero.string_of_uint (Nat.to_uint n))
                      (seq 0 (List.length items)))
                 items) /\
  (forall props, Object_entries (JObject props) = props) /\
  (isObjectLike obj = true ->
     tree obj keyPrefix =
       NodeArray
         (map (fun entry =>
                 if isObjectLike (snd entry)
                 then TreeItem (keyPrefix ++ "['" ++ fst entry ++ "']")
                               (keyPrefix ++ "['" ++ fst entry ++ "']")
                               (KeyLabel (fst entry))
                               (Some (tree (snd entry)
                                           (keyPrefix ++ "['" ++ fst entry ++ "']")))
                 else TreeItem (keyPrefix ++ "['" ++ fst entry ++ "']")
                               (keyPrefix ++ "['" ++ fst entry ++ "']")
                               (KeyValueLabel (fst entry)
                                  {| cv_value := snd entry;
                                     cv_text := JSON_stringify (snd entry) |})
                               None)
              (Object_entries obj))) /\
  (isObjectLike obj = false ->
     tree obj keyPrefix =
       JsonValueEl (keyPrefix ++ "['" ++ ToString Number_toString obj ++ "']")
                   {| cv_value := obj; cv_text := JSON_stringify obj |}) /\
  (forall parent nodeId label,
     Item keyPrefix (tree obj keyPrefix) parent nodeId label <->
     exists keys key v,
       Reaches obj (keys ++ [key]) v /\
       parent = keyPrefix ++ accessPath keys /\
       nodeId = parent ++ "['" ++ key ++ "']" /\
       nodeId = keyPrefix ++ accessPath (keys ++ [key]) /\
       label = if isObjectLike v
               then KeyLabel key
               else KeyValueLabel key
                      {| cv_value := v; cv_text := JSON_stringify v |}) /\
  (forall keys1 keys2,
     Forall (fun key => free "'" key = true) keys1 ->
     Forall (fun key => free "'" key = true) keys2 ->
     keyPrefix ++ accessPath keys1 = keyPrefix ++ accessPath keys2 ->
     keys1 = keys2).
Proof.
  split; [|split; [|split; [|split; [|split; [|split]]]]].
  - split.
    + destruct obj; try discriminate; intros _;
        [left | right]; eexists; reflexivity.
    + intros [[items ->] | [props ->]]; reflexivity.
  - intros items. apply indexed_combine.
  - reflexivity.
  - intros Hobj. rewrite convertToTree_entries by assumption.
    f_equal. apply map_ext. intros [key value]. rewrite treeEntry_item.
    unfold labelOf, nodeIdOf. cbn [fst snd].
    destruct (isObjectLike value); reflexivity.
  - intros Hatom. rewrite convertToTree_atom by assumption. reflexivity.
  - intros parent nodeId label. split.
    + intros Hitem.
      destruct (Item_path Number_toString JSON_stringify obj _ _ _ _ Hitem)
        as (keys & key & v & Hreach & Hparent & Hnode & Hlabel).
      exists keys, key, v.
      rewrite renderPath_accessPath in Hparent.
      split; [exact Hreach|]. split; [exact Hparent|].
      split; [exact Hnode|]. split; [|exact Hlabel].
      rewrite <- renderPath_accessPath, renderPath_snoc.
      rewrite renderPath_accessPath, <- Hparent. exact Hnode.
    + intros (keys & key & v & Hreach & -> & -> & _ & ->).
      pose proof (path_Item Number_toString JSON_stringify keys obj keyPrefix
                    key v Hreach) as Hitem.
      rewrite renderPath_accessPath in Hitem. exact Hitem.
  - intros keys1 keys2 H1 H2 Heq.
    rewrite <- !renderPath_accessPath in Heq.
    eapply renderPath_inj; eassumption.
Qed.

End TreeSpec.
